(** * open-e2ee: the envelope manager of [src/lib/open-e2ee.ts]

    The class [OpenE2EE] owns one PGP key pair and, per item, a fresh
    symmetric key that it wraps under that pair.  The PGP service, the
    symmetric encryption service and the hex encoding utilities are
    imported from modules that are not part of this file of the
    repository; they are interfaces here (type classes), and every
    theorem holds for all their implementations, under the contract it
    names. *)

From Stdlib Require Import String Ascii List Bool Arith Lia.
From Stdlib.Strings Require Import Byte.
Import ListNotations.
Open Scope string_scope.

Set Implicit Arguments.

(** ** Settled promises *)

(** A promise settles either fulfilled with a value or rejected with a
    reason. *)
Inductive settled (E A : Type) : Type :=
| Fulfilled (a : A)
| Rejected (e : E).
Arguments Fulfilled {E A} a.
Arguments Rejected {E A} e.

(** [Promise.all] over two promises rejects with the reason of the
    promise that rejects first in time.  Which of two rejecting promises
    is first depends on the engines' timing, so it is an input. *)
Inductive race : Type :=
| FirstRejectsFirst
| SecondRejectsFirst.

Definition all_settled {E A B} (r : race) (p1 : settled E A) (p2 : settled E B)
  : settled E (A * B) :=
  match p1, p2 with
  | Fulfilled a, Fulfilled b => Fulfilled (a, b)
  | Rejected e, Fulfilled _ => Rejected e
  | Fulfilled _, Rejected e => Rejected e
  | Rejected e1, Rejected e2 =>
      match r with
      | FirstRejectsFirst => Rejected e1
      | SecondRejectsFirst => Rejected e2
      end
  end.

(** [Uint8Array] *)
Definition Uint8Array : Type := list byte.

(** ** Interfaces of the source *)

Module E2EEItemEncrypted.
Record t (CryptoKey : Type) : Type := mk {
  encryptedKey : string;
  encryptedValue : string;
  keyObj : CryptoKey
}.
Arguments mk {CryptoKey} _ _ _.
Arguments encryptedKey {CryptoKey} _.
Arguments encryptedValue {CryptoKey} _.
Arguments keyObj {CryptoKey} _.
End E2EEItemEncrypted.

Module E2EEItem.
Record t (CryptoKey : Type) : Type := mk {
  keyObj : CryptoKey;
  key : string;
  value : string
}.
Arguments mk {CryptoKey} _ _ _.
Arguments keyObj {CryptoKey} _.
Arguments key {CryptoKey} _.
Arguments value {CryptoKey} _.
End E2EEItem.

(** The object [generateKeyPair] resolves with: two serialized texts. *)
Module PGPKeyPair.
Record t : Type := mk {
  privateKey : string;
  publicKey : string
}.
End PGPKeyPair.

(** The object [exportMasterKeys] resolves with. *)
Module MasterKeys.
Record t : Type := mk {
  privateKey : string;
  publicKey : string
}.
End MasterKeys.

(** The object [createEncryptionKey] resolves with. *)
Module EncryptionKey.
Record t (CryptoKey : Type) : Type := mk {
  key : Uint8Array;
  keyObj : CryptoKey
}.
Arguments mk {CryptoKey} _ _.
Arguments key {CryptoKey} _.
Arguments keyObj {CryptoKey} _.
End EncryptionKey.

(** The object [decryptKey] resolves with. *)
Module DecryptedKey.
Record t (CryptoKey : Type) : Type := mk {
  key : string;
  keyObj : CryptoKey
}.
Arguments mk {CryptoKey} _ _.
Arguments key {CryptoKey} _.
Arguments keyObj {CryptoKey} _.
End DecryptedKey.

(** ** The collaborators

    [Error] is what an engine rejects with, [Entropy] one random draw of
    an engine (key material, session key, salt): randomness is an
    explicit argument of the operations that draw it.  A key handle an
    operation receives is [option]: the source passes the fields
    [this.privateKey] and [this.publicKey] through a type assertion
    ([as PGPPrivateKey]), which is erased at run time, so an engine
    receives [undefined] ([None]) from a manager that was never
    initialised. *)

Class PGPService (Error Entropy PGPPrivateKey PGPPublicKey : Type) : Type := {
  generateKeyPair : Entropy -> string -> string -> settled Error PGPKeyPair.t;
  decryptPrivateKey : string -> string -> settled Error PGPPrivateKey;
  readPublicKey : string -> settled Error PGPPublicKey;
  encryptAsymmetric :
    Entropy -> option PGPPrivateKey -> option PGPPublicKey -> string ->
    settled Error string;
  decryptAsymmetric :
    option PGPPrivateKey -> option PGPPublicKey -> string ->
    settled Error string;
  pgp_encrypt : Entropy -> string -> string -> settled Error string;
  pgp_decrypt : string -> string -> settled Error string
}.

Class EncryptionService (Error Entropy CryptoKey : Type) : Type := {
  createEncryptionKey : Entropy -> settled Error (EncryptionKey.t CryptoKey);
  importSymmetricKey : Uint8Array -> settled Error CryptoKey
}.

(** The two conversions are synchronous and total. *)
Class EncodingUtils : Type := {
  hexStringToArray : string -> Uint8Array;
  arrayToHexString : Uint8Array -> string
}.

(** ** The instance fields of [OpenE2EE]

    [cryptoSvc] and [pgpService] are fixed at construction and are the
    class instances above.  A field declared with [?] is [undefined]
    until it is assigned. *)
Record OpenE2EE (PGPPrivateKey PGPPublicKey : Type) : Type := mkOpenE2EE {
  passphrase : string;
  privateKey : option PGPPrivateKey;
  privateKeyEncryptedText : option string;
  publicKeyText : option string;
  publicKey : option PGPPublicKey;
  userId : string
}.
Arguments mkOpenE2EE {PGPPrivateKey PGPPublicKey} _ _ _ _ _ _.

(** [a || ""] on an optional string: [undefined] and the empty string are
    the falsy values. *)
Definition or_empty (a : option string) : string :=
  match a with
  | Some s => if String.eqb s "" then "" else s
  | None => ""
  end.

(** ** Asynchronous methods

    An asynchronous method runs on the instance [Self], may assign its
    fields, and settles.  The instance is returned next to the outcome
    because an assignment made before a rejection stays made. *)
Section Async.

Context {Error Self : Type}.

Definition Promise (A : Type) : Type := Self -> settled Error A * Self.

Definition resolve {A} (a : A) : Promise A := fun this => (Fulfilled a, this).

Definition await {A B} (p : Promise A) (k : A -> Promise B) : Promise B :=
  fun this =>
    match p this with
    | (Fulfilled a, this') => k a this'
    | (Rejected e, this') => (Rejected e, this')
    end.

(** A call into an engine: it does not touch the instance. *)
Definition call {A} (p : settled Error A) : Promise A := fun this => (p, this).

(** Reading [this]. *)
Definition self : Promise Self := fun this => (Fulfilled this, this).

(** [Promise.all([p1, p2])]: both promises are started, in order, and
    jointly awaited. *)
Definition Promise_all {A B} (r : race) (p1 : Promise A) (p2 : Promise B)
  : Promise (A * B) :=
  fun this =>
    let (o1, this1) := p1 this in
    let (o2, this2) := p2 this1 in
    (all_settled r o1 o2, this2).

End Async.

Arguments Promise : clear implicits.

Notation "x <- p ;; k" := (await p (fun x => k))
  (at level 61, p at next level, right associativity).
Notation "p ;; k" := (await p (fun _ => k))
  (at level 61, right associativity).

(** ** The class [OpenE2EE] *)
Section Manager.

Context {Error Entropy PGPPrivateKey PGPPublicKey CryptoKey : Type}.
Context {pgpService : PGPService Error Entropy PGPPrivateKey PGPPublicKey}.
Context {cryptoSvc : EncryptionService Error Entropy CryptoKey}.
Context {encoding : EncodingUtils}.

Definition Self : Type := OpenE2EE PGPPrivateKey PGPPublicKey.

Definition Method (A : Type) : Type := Promise Error Self A.

(** Assignments to the four key fields. *)
Definition set_privateKey (v : PGPPrivateKey) : Method unit := fun this =>
  (Fulfilled tt,
   mkOpenE2EE (passphrase this) (Some v) (privateKeyEncryptedText this)
     (publicKeyText this) (publicKey this) (userId this)).

Definition set_publicKey (v : PGPPublicKey) : Method unit := fun this =>
  (Fulfilled tt,
   mkOpenE2EE (passphrase this) (privateKey this) (privateKeyEncryptedText this)
     (publicKeyText this) (Some v) (userId this)).

Definition set_privateKeyEncryptedText (v : string) : Method unit := fun this =>
  (Fulfilled tt,
   mkOpenE2EE (passphrase this) (privateKey this) (Some v)
     (publicKeyText this) (publicKey this) (userId this)).

Definition set_publicKeyText (v : string) : Method unit := fun this =>
  (Fulfilled tt,
   mkOpenE2EE (passphrase this) (privateKey this) (privateKeyEncryptedText this)
     (Some v) (publicKey this) (userId this)).

(** [constructor(userId, passphrase)] *)
Definition constructor (userId passphrase : string) : Self :=
  mkOpenE2EE passphrase None None None None userId.

(** [private encryptKey] *)
Definition encryptKey (c : Entropy) (key : Uint8Array) : Method string :=
  this <- self ;;
  call (encryptAsymmetric c (privateKey this) (publicKey this)
          (arrayToHexString key)).

(** [private decryptKey] *)
Definition decryptKey (encryptedKey : string)
  : Method (DecryptedKey.t CryptoKey) :=
  this <- self ;;
  key <- call (decryptAsymmetric (privateKey this) (publicKey this)
                 encryptedKey) ;;
  keyObj <- call (importSymmetricKey (hexStringToArray key)) ;;
  resolve (DecryptedKey.mk key keyObj).

(** [build]; [c] is the draw of the key generation. *)
Definition build (c : Entropy) (r : race) : Method Self :=
  this <- self ;;
  kp <- call (generateKeyPair c (passphrase this) (userId this)) ;;
  this <- self ;;
  keysObj <- Promise_all r
    (call (decryptPrivateKey (PGPKeyPair.privateKey kp) (passphrase this)))
    (call (readPublicKey (PGPKeyPair.publicKey kp))) ;;
  set_privateKey (fst keysObj) ;;
  set_publicKey (snd keysObj) ;;
  set_privateKeyEncryptedText (PGPKeyPair.privateKey kp) ;;
  set_publicKeyText (PGPKeyPair.publicKey kp) ;;
  self.

(** [load] *)
Definition load (r : race) (encryptedPrivateKey publicKey : string)
  : Method Self :=
  this <- self ;;
  keysObj <- Promise_all r
    (call (decryptPrivateKey encryptedPrivateKey (passphrase this)))
    (call (readPublicKey publicKey)) ;;
  set_privateKey (fst keysObj) ;;
  set_publicKey (snd keysObj) ;;
  set_privateKeyEncryptedText encryptedPrivateKey ;;
  set_publicKeyText publicKey ;;
  self.

(** [exportMasterKeys] *)
Definition exportMasterKeys : Method MasterKeys.t :=
  this <- self ;;
  resolve (MasterKeys.mk (or_empty (privateKeyEncryptedText this))
             (or_empty (publicKeyText this))).

(** [encrypt]; [ck], [cw] and [cp] are the draws of the key generation,
    of the key wrap and of the payload encryption. *)
Definition encrypt (ck cw cp : Entropy) (r : race) (data : string)
  : Method (E2EEItemEncrypted.t CryptoKey) :=
  k <- call (createEncryptionKey ck) ;;
  enc <- Promise_all r
    (encryptKey cw (EncryptionKey.key k))
    (call (pgp_encrypt cp (arrayToHexString (EncryptionKey.key k)) data)) ;;
  resolve (E2EEItemEncrypted.mk (fst enc) (snd enc) (EncryptionKey.keyObj k)).

(** [decrypt] *)
Definition decrypt (encryptedKey encryptedData : string)
  : Method (E2EEItem.t CryptoKey) :=
  k <- decryptKey encryptedKey ;;
  value <- call (pgp_decrypt (DecryptedKey.key k) encryptedData) ;;
  resolve (E2EEItem.mk (DecryptedKey.keyObj k) (DecryptedKey.key k) value).

End Manager.

(** ** The two states of an instance

    [Ready]: all four key fields are assigned, as [build] and [load]
    leave them.  [Uninitialized]: none is, as [constructor] leaves
    them. *)
Definition isReady {SK PK : Type} (this : OpenE2EE SK PK) : bool :=
  match privateKey this, publicKey this,
        privateKeyEncryptedText this, publicKeyText this with
  | Some _, Some _, Some _, Some _ => true
  | _, _, _, _ => false
  end.

Definition isUninitialized {SK PK : Type} (this : OpenE2EE SK PK) : bool :=
  match privateKey this, publicKey this,
        privateKeyEncryptedText this, publicKeyText this with
  | None, None, None, None => true
  | _, _, _, _ => false
  end.

Definition Ready {SK PK : Type} (this : OpenE2EE SK PK) : Prop :=
  isReady this = true.

Definition Uninitialized {SK PK : Type} (this : OpenE2EE SK PK) : Prop :=
  isUninitialized this = true.

(** The instance after a [load] or [build] that stored the handles [sk]
    and [pk] and the texts [skText] and [pkText]. *)
Definition initialised {SK PK : Type} (this : OpenE2EE SK PK)
  (sk : SK) (pk : PK) (skText pkText : string) : OpenE2EE SK PK :=
  mkOpenE2EE (passphrase this) (Some sk) (Some skText) (Some pkText) (Some pk)
    (userId this).

(** ** Contracts of the collaborators

    What the theorems below ask of the engines, each stated for the key
    pair or the keys it is used with. *)
Section Contracts.

Context {Error Entropy PGPPrivateKey PGPPublicKey CryptoKey : Type}.
Context {pgpService : PGPService Error Entropy PGPPrivateKey PGPPublicKey}.
Context {cryptoSvc : EncryptionService Error Entropy CryptoKey}.
Context {encoding : EncodingUtils}.

(** Asymmetric decryption inverts asymmetric encryption under the pair
    [(sk, pk)]. *)
Definition asymmetric_inverse (sk : PGPPrivateKey) (pk : PGPPublicKey) : Prop :=
  forall (c : Entropy) (text ciphertext : string),
    encryptAsymmetric c (Some sk) (Some pk) text = Fulfilled ciphertext ->
    decryptAsymmetric (Some sk) (Some pk) ciphertext = Fulfilled text.

(** Payload decryption inverts payload encryption under the same key
    text. *)
Definition payload_inverse : Prop :=
  forall (c : Entropy) (key data ciphertext : string),
    pgp_encrypt c key data = Fulfilled ciphertext ->
    pgp_decrypt key ciphertext = Fulfilled data.

(** Payload decryption is authenticated: under the hex text of another
    key it rejects. *)
Definition payload_authenticated : Prop :=
  forall (c : Entropy) (k k' : Uint8Array) (data ciphertext : string),
    k <> k' ->
    pgp_encrypt c (arrayToHexString k) data = Fulfilled ciphertext ->
    exists e, pgp_decrypt (arrayToHexString k') ciphertext = Rejected e.

(** The hex encoding round-trips. *)
Definition hex_inverse : Prop :=
  forall k : Uint8Array, hexStringToArray (arrayToHexString k) = k.

(** The symmetric engine imports the keys it generates. *)
Definition import_accepts_generated : Prop :=
  forall (c : Entropy) (k : EncryptionKey.t CryptoKey),
    createEncryptionKey c = Fulfilled k ->
    exists keyObj, importSymmetricKey (EncryptionKey.key k) = Fulfilled keyObj.

(** A private key generated under [passphrase] does not decrypt under
    another passphrase. *)
Definition passphrase_protects : Prop :=
  forall (c : Entropy) (passphrase userId passphrase' : string)
         (kp : PGPKeyPair.t),
    generateKeyPair c passphrase userId = Fulfilled kp ->
    passphrase' <> passphrase ->
    exists e, decryptPrivateKey (PGPKeyPair.privateKey kp) passphrase'
              = Rejected e.

(** The asymmetric engine rejects absent key handles. *)
Definition rejects_absent_handles : Prop :=
  (forall c text, exists e,
      encryptAsymmetric c None None text = Rejected e) /\
  (forall ciphertext, exists e,
      decryptAsymmetric None None ciphertext = Rejected e).

(** The key wrap under the handles [sk] and [pk], absent or not, is
    injective in its text: one wrapped key never stands for two key
    texts. *)
Definition wrap_injective (sk : option PGPPrivateKey)
  (pk : option PGPPublicKey) : Prop :=
  forall (c c' : Entropy) (text text' wrapped : string),
    encryptAsymmetric c sk pk text = Fulfilled wrapped ->
    encryptAsymmetric c' sk pk text' = Fulfilled wrapped ->
    text = text'.

(** The hex encoding is injective. *)
Definition hex_injective : Prop :=
  forall k k' : Uint8Array, arrayToHexString k = arrayToHexString k' -> k = k'.

(** The payload ciphertext binds its key: one ciphertext of one payload
    is never made under the hex texts of two keys. *)
Definition payload_binds_key : Prop :=
  forall (c c' : Entropy) (k k' : Uint8Array) (data ciphertext : string),
    pgp_encrypt c (arrayToHexString k) data = Fulfilled ciphertext ->
    pgp_encrypt c' (arrayToHexString k') data = Fulfilled ciphertext ->
    k = k'.

End Contracts.

Arguments payload_inverse {Error Entropy PGPPrivateKey PGPPublicKey} pgpService.
Arguments payload_authenticated
  {Error Entropy PGPPrivateKey PGPPublicKey} pgpService encoding.
Arguments hex_inverse : clear implicits.
Arguments import_accepts_generated {Error Entropy CryptoKey} cryptoSvc.
Arguments passphrase_protects
  {Error Entropy PGPPrivateKey PGPPublicKey} pgpService.
Arguments rejects_absent_handles
  {Error Entropy PGPPrivateKey PGPPublicKey} pgpService.
Arguments hex_injective : clear implicits.
Arguments payload_binds_key
  {Error Entropy PGPPrivateKey PGPPublicKey} pgpService encoding.

(** ** Reference collaborators

    Two small implementations of the three interfaces, used to run the
    manager on concrete inputs.  [Sim] keeps the contracts above: it
    checks passphrases, key handles and keys.  [Lax] is [Sim] except that
    its asymmetric operations accept an absent key handle. *)
Module Sim.

Inductive error : Type :=
| BadPassphrase
| MalformedKey
| MissingKey
| WrongKey
| Tampered
| EmptyKey.

(** A pair of strings as one string: every character of [a] is
    announced by ["1"], the end of [a] by ["0"], and [b] follows. *)
Fixpoint pack (a b : string) : string :=
  match a with
  | EmptyString => String "0" b
  | String c a' => String "1" (String c (pack a' b))
  end.

Fixpoint unpack (s : string) : option (string * string) :=
  match s with
  | String "0" b => Some (EmptyString, b)
  | String "1" (String c s') =>
      match unpack s' with
      | Some (a, b) => Some (String c a, b)
      | None => None
      end
  | _ => None
  end.

(** Hex digits. *)
Definition hexDigit (n : nat) : ascii :=
  match n with
  | 0 => "0" | 1 => "1" | 2 => "2" | 3 => "3" | 4 => "4" | 5 => "5"
  | 6 => "6" | 7 => "7" | 8 => "8" | 9 => "9" | 10 => "a" | 11 => "b"
  | 12 => "c" | 13 => "d" | 14 => "e" | _ => "f"
  end%char.

Definition digitValue (c : ascii) : nat :=
  let n := nat_of_ascii c in
  if (Nat.leb 48 n && Nat.leb n 57)%bool then n - 48
  else if (Nat.leb 97 n && Nat.leb n 102)%bool then n - 87
  else 0.

Definition byteToHex (b : byte) : string :=
  let n := Byte.to_nat b in
  String (hexDigit (n / 16)) (String (hexDigit (n mod 16)) EmptyString).

Definition hexToByte (hi lo : ascii) : byte :=
  match Byte.of_nat (16 * digitValue hi + digitValue lo) with
  | Some b => b
  | None => x00
  end.

Fixpoint toHex (k : Uint8Array) : string :=
  match k with
  | [] => EmptyString
  | b :: k' => byteToHex b ++ toHex k'
  end.

Fixpoint fromHex (s : string) : Uint8Array :=
  match s with
  | String hi (String lo s') => hexToByte hi lo :: fromHex s'
  | String lo EmptyString => [hexToByte "0" lo]
  | EmptyString => []
  end.

#[global] Instance encoding : EncodingUtils := {
  hexStringToArray := fromHex;
  arrayToHexString := toHex
}.

(** Key handles are key identifiers; the identifier of a generated pair
    is the user id it is bound to.  The private key text is the
    identifier packed with the passphrase that protects it, the public
    key text the identifier packed with the tag ["pub"]. *)
Definition keyPair (passphrase userId : string) : PGPKeyPair.t :=
  PGPKeyPair.mk (pack passphrase userId) (pack "pub" userId).

#[global] Instance pgpService : PGPService error Uint8Array string string := {
  generateKeyPair := fun _ passphrase userId =>
    Fulfilled (keyPair passphrase userId);
  decryptPrivateKey := fun text passphrase =>
    match unpack text with
    | Some (p, id) =>
        if String.eqb p passphrase then Fulfilled id
        else Rejected BadPassphrase
    | None => Rejected MalformedKey
    end;
  readPublicKey := fun text =>
    match unpack text with
    | Some (tag, id) =>
        if String.eqb tag "pub" then Fulfilled id else Rejected MalformedKey
    | None => Rejected MalformedKey
    end;
  encryptAsymmetric := fun _ sk pk text =>
    match sk, pk with
    | Some signer, Some recipient =>
        Fulfilled (pack recipient (pack signer text))
    | _, _ => Rejected MissingKey
    end;
  decryptAsymmetric := fun sk pk ciphertext =>
    match sk, pk with
    | Some reader, Some signer =>
        match unpack ciphertext with
        | Some (recipient, signed) =>
            match unpack signed with
            | Some (signer', text) =>
                if String.eqb recipient reader && String.eqb signer' signer
                then Fulfilled text
                else Rejected WrongKey
            | None => Rejected Tampered
            end
        | None => Rejected Tampered
        end
    | _, _ => Rejected MissingKey
    end;
  pgp_encrypt := fun _ key data => Fulfilled (pack key data);
  pgp_decrypt := fun key ciphertext =>
    match unpack ciphertext with
    | Some (key', data) =>
        if String.eqb key' key then Fulfilled data else Rejected WrongKey
    | None => Rejected Tampered
    end
}.

(** The symmetric key is the random draw itself; its handle keeps the
    bytes. *)
#[global] Instance cryptoSvc : EncryptionService error Uint8Array Uint8Array := {
  createEncryptionKey := fun c =>
    match c with
    | [] => Rejected EmptyKey
    | _ :: _ => Fulfilled (EncryptionKey.mk c c)
    end;
  importSymmetricKey := fun k =>
    match k with
    | [] => Rejected EmptyKey
    | _ :: _ => Fulfilled k
    end
}.

(** The scenario of the specification: user ["user-1"] with passphrase
    ["correct-horse"], before and after [build]. *)
Definition fresh : @Self string string := constructor "user-1" "correct-horse".

Definition provisioned : @Self string string :=
  snd (build (x00 :: nil) FirstRejectsFirst fresh).

(** The same user with another passphrase. *)
Definition forgetful : @Self string string := constructor "user-1" "wrong".

(** The same user after a [load] of their own private key with the
    public key of ["user-2"]. *)
Definition mismatched : @Self string string :=
  snd (load FirstRejectsFirst
         (PGPKeyPair.privateKey (keyPair "correct-horse" "user-1"))
         (PGPKeyPair.publicKey (keyPair "correct-horse" "user-2")) fresh).

End Sim.

Module Lax.

(** An absent key handle stands for the anonymous key, whose identifier
    is the empty string. *)
Definition handle (k : option string) : option string :=
  match k with
  | Some id => Some id
  | None => Some EmptyString
  end.

Definition pgpService : PGPService Sim.error Uint8Array string string := {|
  generateKeyPair := generateKeyPair (PGPService := Sim.pgpService);
  decryptPrivateKey := decryptPrivateKey (PGPService := Sim.pgpService);
  readPublicKey := readPublicKey (PGPService := Sim.pgpService);
  encryptAsymmetric := fun c sk pk text =>
    encryptAsymmetric (PGPService := Sim.pgpService) c (handle sk) (handle pk)
      text;
  decryptAsymmetric := fun sk pk ciphertext =>
    decryptAsymmetric (PGPService := Sim.pgpService) (handle sk) (handle pk)
      ciphertext;
  pgp_encrypt := pgp_encrypt (PGPService := Sim.pgpService);
  pgp_decrypt := pgp_decrypt (PGPService := Sim.pgpService)
|}.

End Lax.

(** [Blind] is [Sim] with a payload cipher that does not use its key:
    encryption and decryption are still inverse of each other. *)
Module Blind.

Definition pgpService : PGPService Sim.error Uint8Array string string := {|
  generateKeyPair := generateKeyPair (PGPService := Sim.pgpService);
  decryptPrivateKey := decryptPrivateKey (PGPService := Sim.pgpService);
  readPublicKey := readPublicKey (PGPService := Sim.pgpService);
  encryptAsymmetric := encryptAsymmetric (PGPService := Sim.pgpService);
  decryptAsymmetric := decryptAsymmetric (PGPService := Sim.pgpService);
  pgp_encrypt := fun _ _ data => Fulfilled data;
  pgp_decrypt := fun _ ciphertext => Fulfilled ciphertext
|}.

End Blind.

(** [Sealed] generates keys as [Sim] does and imports none. *)
Module Sealed.

Definition cryptoSvc : EncryptionService Sim.error Uint8Array Uint8Array := {|
  createEncryptionKey :=
    createEncryptionKey (EncryptionService := Sim.cryptoSvc);
  importSymmetricKey := fun _ => Rejected Sim.MalformedKey
|}.

End Sealed.

(** ** Callers

    A caller holds one instance and calls its public methods one after
    another, awaiting each before the next; whatever a call settles
    with, the next one runs on the instance the call left. *)
Inductive invocation (Entropy : Type) : Type :=
| Build (c : Entropy) (r : race)
| Load (r : race) (encryptedPrivateKey publicKey : string)
| ExportMasterKeys
| Encrypt (ck cw cp : Entropy) (r : race) (data : string)
| Decrypt (encryptedKey encryptedData : string).
Arguments ExportMasterKeys {Entropy}.
Arguments Load {Entropy} r encryptedPrivateKey publicKey.
Arguments Decrypt {Entropy} encryptedKey encryptedData.

Section Callers.

Context {Error Entropy PGPPrivateKey PGPPublicKey CryptoKey : Type}.
Context {pgpService : PGPService Error Entropy PGPPrivateKey PGPPublicKey}.
Context {cryptoSvc : EncryptionService Error Entropy CryptoKey}.
Context {encoding : EncodingUtils}.

(** The instance one call leaves. *)
Definition invoke (i : invocation Entropy)
  (this : OpenE2EE PGPPrivateKey PGPPublicKey)
  : OpenE2EE PGPPrivateKey PGPPublicKey :=
  match i with
  | Build c r => snd (build c r this)
  | Load r encryptedPrivateKey publicKey =>
      snd (load r encryptedPrivateKey publicKey this)
  | ExportMasterKeys => snd (exportMasterKeys (Error := Error) this)
  | Encrypt ck cw cp r data => snd (encrypt ck cw cp r data this)
  | Decrypt encryptedKey encryptedData =>
      snd (decrypt encryptedKey encryptedData this)
  end.

(** The instance a sequence of calls leaves. *)
Definition invoke_all (calls : list (invocation Entropy))
  (this : OpenE2EE PGPPrivateKey PGPPublicKey)
  : OpenE2EE PGPPrivateKey PGPPublicKey :=
  fold_left (fun this i => invoke i this) calls this.

End Callers.

(** * Properties *)

(** ** The reference collaborators keep the contracts *)

Lemma unpack_pack (a b : string) : Sim.unpack (Sim.pack a b) = Some (a, b).
Proof.
  induction a as [|c a IH]; simpl.
  - reflexivity.
  - now rewrite IH.
Qed.

Lemma hexToByte_byteToHex (b : byte) :
  Sim.fromHex (Sim.byteToHex b) = [b].
Proof. destruct b; reflexivity. Qed.

Lemma fromHex_app_byte (b : byte) (s : string) :
  Sim.fromHex (Sim.byteToHex b ++ s) = b :: Sim.fromHex s.
Proof.
  pose proof (hexToByte_byteToHex b) as H.
  unfold Sim.byteToHex in *. simpl in *.
  injection H as H. now rewrite H.
Qed.

Lemma sim_hex_inverse : hex_inverse Sim.encoding.
Proof.
  intros k. change (Sim.fromHex (Sim.toHex k) = k).
  induction k as [|b k IH].
  - reflexivity.
  - cbn [Sim.toHex]. rewrite fromHex_app_byte. now rewrite IH.
Qed.

Lemma sim_asymmetric_inverse (id : string) :
  asymmetric_inverse (pgpService := Sim.pgpService) id id.
Proof.
  intros c text ciphertext H. simpl in *.
  injection H as <-. rewrite !unpack_pack, String.eqb_refl. reflexivity.
Qed.

Lemma sim_payload_inverse : payload_inverse Sim.pgpService.
Proof.
  intros c key data ciphertext H. simpl in *.
  injection H as <-. now rewrite unpack_pack, String.eqb_refl.
Qed.

Lemma sim_payload_authenticated :
  payload_authenticated Sim.pgpService Sim.encoding.
Proof.
  intros c k k' data ciphertext Hk H. simpl in *.
  injection H as <-. rewrite unpack_pack.
  destruct (String.eqb_spec (Sim.toHex k) (Sim.toHex k')) as [E|_].
  - exfalso. apply Hk.
    rewrite <- (sim_hex_inverse k), <- (sim_hex_inverse k'). simpl.
    now rewrite E.
  - now exists Sim.WrongKey.
Qed.

Lemma sim_import_accepts_generated : import_accepts_generated Sim.cryptoSvc.
Proof.
  intros c k H. simpl in *. destruct c as [|b c]; [discriminate|].
  injection H as <-. simpl. now exists (b :: c).
Qed.

Lemma sim_passphrase_protects : passphrase_protects Sim.pgpService.
Proof.
  intros c passphrase userId passphrase' kp H Hne. simpl in *.
  injection H as <-. simpl. rewrite unpack_pack.
  destruct (String.eqb_spec passphrase passphrase') as [E|_].
  - now subst.
  - now exists Sim.BadPassphrase.
Qed.

Lemma sim_rejects_absent_handles : rejects_absent_handles Sim.pgpService.
Proof. split; intros; now exists Sim.MissingKey. Qed.




(** [Lax] keeps the same contracts on the handles of a pair. *)
Lemma lax_keeps_contracts :
  (forall id, asymmetric_inverse (pgpService := Lax.pgpService) id id) /\
  payload_inverse Lax.pgpService /\
  payload_authenticated Lax.pgpService Sim.encoding /\
  passphrase_protects Lax.pgpService.
Proof.
  split; [|split; [|split]].
  - intros id c text ciphertext H. exact (@sim_asymmetric_inverse id c _ _ H).
  - exact sim_payload_inverse.
  - exact sim_payload_authenticated.
  - exact sim_passphrase_protects.
Qed.

(** ** What each method computes *)
Section Methods.

Context {Error Entropy PGPPrivateKey PGPPublicKey CryptoKey : Type}.
Context {pgpService : PGPService Error Entropy PGPPrivateKey PGPPublicKey}.
Context {cryptoSvc : EncryptionService Error Entropy CryptoKey}.
Context {encoding : EncodingUtils}.

Implicit Types this : @Self PGPPrivateKey PGPPublicKey.

Lemma all_settled_fulfilled {A B} r (p1 : settled Error A) (p2 : settled Error B) ab :
  all_settled r p1 p2 = Fulfilled ab <->
  p1 = Fulfilled (fst ab) /\ p2 = Fulfilled (snd ab).
Proof.
  destruct ab as [a b]; simpl. destruct p1, p2, r; simpl; split.
  all: try (intros [H1 H2]; congruence).
  all: intros H; try discriminate; injection H as -> ->; now split.
Qed.

Lemma all_settled_rejected {A B} r (p1 : settled Error A) (p2 : settled Error B) e :
  all_settled r p1 p2 = Rejected e -> p1 = Rejected e \/ p2 = Rejected e.
Proof.
  destruct p1, p2, r; simpl; intros H; try discriminate;
    injection H as ->; auto.
Qed.

Lemma load_eq r epk pub this :
  load r epk pub this =
  match all_settled r (decryptPrivateKey epk (passphrase this))
          (readPublicKey pub) with
  | Fulfilled keysObj =>
      let this' := initialised this (fst keysObj) (snd keysObj) epk pub in
      (Fulfilled this', this')
  | Rejected e => (Rejected e, this)
  end.
Proof.
  unfold load, await, Promise_all, call, self; simpl.
  destruct (all_settled _ _ _); reflexivity.
Qed.

Lemma build_eq c r this :
  build c r this =
  match generateKeyPair c (passphrase this) (userId this) with
  | Fulfilled kp =>
      load r (PGPKeyPair.privateKey kp) (PGPKeyPair.publicKey kp) this
  | Rejected e => (Rejected e, this)
  end.
Proof.
  unfold build, load, await, Promise_all, call, self; simpl.
  destruct (generateKeyPair _ _ _); reflexivity.
Qed.

Lemma encryptKey_eq c k this :
  encryptKey c k this =
  (encryptAsymmetric c (privateKey this) (publicKey this) (arrayToHexString k),
   this).
Proof. reflexivity. Qed.

Lemma decryptKey_eq ek this :
  decryptKey ek this =
  (match decryptAsymmetric (privateKey this) (publicKey this) ek with
   | Fulfilled key =>
       match importSymmetricKey (hexStringToArray key) with
       | Fulfilled keyObj => Fulfilled (DecryptedKey.mk key keyObj)
       | Rejected e => Rejected e
       end
   | Rejected e => Rejected e
   end, this).
Proof.
  unfold decryptKey, await, call, self, resolve; simpl.
  destruct (decryptAsymmetric _ _ _); [|reflexivity].
  destruct (importSymmetricKey _); reflexivity.
Qed.

Lemma encrypt_eq ck cw cp r data this :
  encrypt ck cw cp r data this =
  (match createEncryptionKey ck with
   | Fulfilled k =>
       match all_settled r
               (encryptAsymmetric cw (privateKey this) (publicKey this)
                  (arrayToHexString (EncryptionKey.key k)))
               (pgp_encrypt cp (arrayToHexString (EncryptionKey.key k)) data)
       with
       | Fulfilled enc =>
           Fulfilled (E2EEItemEncrypted.mk (fst enc) (snd enc)
                        (EncryptionKey.keyObj k))
       | Rejected e => Rejected e
       end
   | Rejected e => Rejected e
   end, this).
Proof.
  unfold encrypt, encryptKey, await, Promise_all, call, self, resolve; simpl.
  destruct (createEncryptionKey _); [|reflexivity].
  destruct (all_settled _ _ _); reflexivity.
Qed.

Lemma decrypt_eq ek ed this :
  decrypt ek ed this =
  (match fst (decryptKey ek this) with
   | Fulfilled k =>
       match pgp_decrypt (DecryptedKey.key k) ed with
       | Fulfilled value =>
           Fulfilled (E2EEItem.mk (DecryptedKey.keyObj k) (DecryptedKey.key k)
                        value)
       | Rejected e => Rejected e
       end
   | Rejected e => Rejected e
   end, this).
Proof.
  unfold decrypt, await, call, resolve. rewrite decryptKey_eq. simpl.
  destruct (decryptAsymmetric _ _ _); [|reflexivity].
  destruct (importSymmetricKey _); [|reflexivity].
  simpl. destruct (pgp_decrypt _ _); reflexivity.
Qed.

Lemma exportMasterKeys_eq this :
  exportMasterKeys (Error := Error) this =
  (Fulfilled (MasterKeys.mk (or_empty (privateKeyEncryptedText this))
                (or_empty (publicKeyText this))), this).
Proof. reflexivity. Qed.

Lemma or_empty_Some (s : string) : or_empty (Some s) = s.
Proof.
  unfold or_empty. destruct (String.eqb_spec s ""); congruence.
Qed.

Lemma Ready_handles this :
  Ready this ->
  exists sk pk, privateKey this = Some sk /\ publicKey this = Some pk.
Proof.
  unfold Ready, isReady.
  destruct (privateKey this) as [sk|], (publicKey this) as [pk|];
    try discriminate.
  intros _. now exists sk, pk.
Qed.

Lemma Uninitialized_fields this :
  Uninitialized this ->
  privateKey this = None /\ publicKey this = None /\
  privateKeyEncryptedText this = None /\ publicKeyText this = None.
Proof.
  unfold Uninitialized, isUninitialized.
  destruct (privateKey this), (publicKey this),
    (privateKeyEncryptedText this), (publicKeyText this);
    try discriminate.
  now intros _.
Qed.

Lemma initialised_Ready this sk pk skText pkText :
  Ready (initialised this sk pk skText pkText).
Proof. reflexivity. Qed.

Lemma constructor_Uninitialized (userId passphrase : string) :
  Uninitialized (@constructor PGPPrivateKey PGPPublicKey userId passphrase).
Proof. reflexivity. Qed.

(** The contracts on inverses give the contracts on injectivity. *)
Lemma asymmetric_inverse_wrap_injective sk pk :
  asymmetric_inverse sk pk -> wrap_injective (Some sk) (Some pk).
Proof.
  intros Hinv c c' text text' wrapped H H'.
  apply Hinv in H, H'. congruence.
Qed.

Lemma hex_inverse_injective : hex_inverse encoding -> hex_injective encoding.
Proof.
  intros Hhex k k' H. rewrite <- (Hhex k), <- (Hhex k'). now rewrite H.
Qed.

Lemma payload_authenticated_binds_key :
  payload_inverse pgpService ->
  payload_authenticated pgpService encoding ->
  payload_binds_key pgpService encoding.
Proof.
  intros Hinv Hauth c c' k k' data ciphertext H H'.
  destruct (list_eq_dec Byte.byte_eq_dec k k') as [E|Hne]; [exact E|].
  destruct (Hauth _ _ _ _ _ Hne H) as [e He].
  apply Hinv in H'. congruence.
Qed.

(** [load] and [build] are the transitions into [Ready]: when they
    resolve, they resolve with the instance itself, and it is Ready. *)
Lemma load_fulfilled_Ready r epk pub this this' :
  fst (load r epk pub this) = Fulfilled this' ->
  snd (load r epk pub this) = this' /\ Ready this'.
Proof.
  rewrite load_eq. destruct (all_settled _ _ _); [|discriminate].
  cbn [fst snd]. intros H. injection H as <-. split; reflexivity.
Qed.

Lemma build_fulfilled_Ready c r this this' :
  fst (build c r this) = Fulfilled this' ->
  snd (build c r this) = this' /\ Ready this'.
Proof.
  rewrite build_eq. destruct (generateKeyPair _ _ _); [|discriminate].
  apply load_fulfilled_Ready.
Qed.

End Methods.

(** ** The envelope protocol *)
Section Envelope.

Context {Error Entropy PGPPrivateKey PGPPublicKey CryptoKey : Type}.
Context {pgpService : PGPService Error Entropy PGPPrivateKey PGPPublicKey}.
Context {cryptoSvc : EncryptionService Error Entropy CryptoKey}.
Context {encoding : EncodingUtils}.

Implicit Types this : @Self PGPPrivateKey PGPPublicKey.

(** C1, as the code has it.  Round trip.  On a Ready manager whose two
    stored handles form a pair under which the engine's asymmetric
    decryption inverts its asymmetric encryption, and whose engines
    otherwise invert each other (payload decryption inverts payload
    encryption, the hex encoding round-trips, and the symmetric engine
    imports the keys it generates), whenever [encrypt P] resolves with an item,
    [decrypt] of that item's [encryptedKey] and [encryptedValue] on the
    same manager resolves, with [value] equal to [P] and [key] equal to
    the hex text of the symmetric key generated inside that [encrypt]. *)
Theorem encrypt_decrypt_round_trip this :
  Ready this ->
  (forall sk pk, privateKey this = Some sk -> publicKey this = Some pk ->
                 asymmetric_inverse sk pk) ->
  payload_inverse pgpService ->
  hex_inverse encoding ->
  import_accepts_generated cryptoSvc ->
  forall (ck cw cp : Entropy) (r : race) (P : string)
         (item : E2EEItemEncrypted.t CryptoKey),
    fst (encrypt ck cw cp r P this) = Fulfilled item ->
    exists k keyObj,
      createEncryptionKey ck = Fulfilled k /\
      decrypt (E2EEItemEncrypted.encryptedKey item)
        (E2EEItemEncrypted.encryptedValue item)
        (snd (encrypt ck cw cp r P this))
      = (Fulfilled (E2EEItem.mk keyObj
                      (arrayToHexString (EncryptionKey.key k)) P),
         this).
Proof.
  intros HR Hasym Hpay Hhex Himp ck cw cp r P item H.
  destruct (Ready_handles HR) as (sk & pk & Hsk & Hpk).
  specialize (Hasym sk pk Hsk Hpk).
  rewrite encrypt_eq in *. cbn [fst snd] in *.
  destruct (createEncryptionKey ck) as [k|] eqn:Hk; [|discriminate].
  destruct (all_settled _ _ _) as [enc|] eqn:Henc; [|discriminate].
  injection H as <-. cbn [E2EEItemEncrypted.encryptedKey
                            E2EEItemEncrypted.encryptedValue].
  apply all_settled_fulfilled in Henc. destruct Henc as [Hwrap Hct].
  rewrite Hsk, Hpk in Hwrap. apply Hasym in Hwrap. apply Hpay in Hct.
  destruct (Himp ck k Hk) as [keyObj Hko].
  exists k, keyObj. split; [reflexivity|].
  rewrite decrypt_eq, decryptKey_eq. cbn [fst].
  rewrite Hsk, Hpk, Hwrap, Hhex, Hko.
  cbn [DecryptedKey.key DecryptedKey.keyObj]. now rewrite Hct.
Qed.


(** C2, as the code has it.  On an Uninitialized manager [encrypt] and
    [decrypt] make no readiness check: they hand the absent key handles
    to the asymmetric engine and settle as the engines do, leaving the
    instance as it was.  [decrypt] settles as the asymmetric decryption
    under absent handles, then the key import, then the payload
    decryption.  [encrypt] returns a rejected key generation unchanged;
    with a key generated it resolves when the wrap under absent handles
    and the payload encryption are both fulfilled, and rejects with the
    reason of the one that rejects, or of the one that rejects first
    when both do.  So when the asymmetric engine rejects absent handles,
    [decrypt] rejects with the engine's reason, and [encrypt] rejects
    with the reason of the key generation, or else of the wrap, or else,
    when the payload encryption rejects too and first, of the payload
    encryption. *)
Theorem uninitialized_defers_to_engine this :
  Uninitialized this ->
  (forall ek ed : string,
      decrypt ek ed this
      = (match decryptAsymmetric None None ek with
         | Fulfilled key =>
             match importSymmetricKey (hexStringToArray key) with
             | Fulfilled keyObj =>
                 match pgp_decrypt key ed with
                 | Fulfilled value => Fulfilled (E2EEItem.mk keyObj key value)
                 | Rejected e => Rejected e
                 end
             | Rejected e => Rejected e
             end
         | Rejected e => Rejected e
         end, this)) /\
  (forall (ck cw cp : Entropy) (data : string),
      (forall (r : race) e,
          createEncryptionKey ck = Rejected e ->
          encrypt ck cw cp r data this = (Rejected e, this)) /\
      (forall k,
          createEncryptionKey ck = Fulfilled k ->
          (forall (r : race) wrapped ciphertext,
              encryptAsymmetric cw None None
                (arrayToHexString (EncryptionKey.key k)) = Fulfilled wrapped ->
              pgp_encrypt cp (arrayToHexString (EncryptionKey.key k)) data
              = Fulfilled ciphertext ->
              encrypt ck cw cp r data this
              = (Fulfilled (E2EEItemEncrypted.mk wrapped ciphertext
                              (EncryptionKey.keyObj k)), this)) /\
          (forall (r : race) ew ciphertext,
              encryptAsymmetric cw None None
                (arrayToHexString (EncryptionKey.key k)) = Rejected ew ->
              pgp_encrypt cp (arrayToHexString (EncryptionKey.key k)) data
              = Fulfilled ciphertext ->
              encrypt ck cw cp r data this = (Rejected ew, this)) /\
          (forall (r : race) wrapped ep,
              encryptAsymmetric cw None None
                (arrayToHexString (EncryptionKey.key k)) = Fulfilled wrapped ->
              pgp_encrypt cp (arrayToHexString (EncryptionKey.key k)) data
              = Rejected ep ->
              encrypt ck cw cp r data this = (Rejected ep, this)) /\
          (forall ew ep,
              encryptAsymmetric cw None None
                (arrayToHexString (EncryptionKey.key k)) = Rejected ew ->
              pgp_encrypt cp (arrayToHexString (EncryptionKey.key k)) data
              = Rejected ep ->
              encrypt ck cw cp FirstRejectsFirst data this = (Rejected ew, this) /\
              encrypt ck cw cp SecondRejectsFirst data this
              = (Rejected ep, this)))) /\
  (rejects_absent_handles pgpService ->
   (forall ek ed : string,
       exists e,
         decryptAsymmetric None None ek = Rejected e /\
         decrypt ek ed this = (Rejected e, this)) /\
   (forall (ck cw cp : Entropy) (data : string) k,
       createEncryptionKey ck = Fulfilled k ->
       exists ew,
         encryptAsymmetric cw None None
           (arrayToHexString (EncryptionKey.key k)) = Rejected ew /\
         encrypt ck cw cp FirstRejectsFirst data this = (Rejected ew, this) /\
         (forall ciphertext,
             pgp_encrypt cp (arrayToHexString (EncryptionKey.key k)) data
             = Fulfilled ciphertext ->
             encrypt ck cw cp SecondRejectsFirst data this
             = (Rejected ew, this)) /\
         (forall ep,
             pgp_encrypt cp (arrayToHexString (EncryptionKey.key k)) data
             = Rejected ep ->
             encrypt ck cw cp SecondRejectsFirst data this
             = (Rejected ep, this)))).
Proof.
  intros HU.
  destruct (Uninitialized_fields HU) as (Hsk & Hpk & _ & _).
  assert (Hdec : forall ek ed : string,
             decrypt ek ed this
             = (match decryptAsymmetric None None ek with
                | Fulfilled key =>
                    match importSymmetricKey (hexStringToArray key) with
                    | Fulfilled keyObj =>
                        match pgp_decrypt key ed with
                        | Fulfilled value =>
                            Fulfilled (E2EEItem.mk keyObj key value)
                        | Rejected e => Rejected e
                        end
                    | Rejected e => Rejected e
                    end
                | Rejected e => Rejected e
                end, this)).
  { intros ek ed. rewrite decrypt_eq, decryptKey_eq, Hsk, Hpk. cbn [fst].
    destruct (decryptAsymmetric None None ek) as [key|]; [|reflexivity].
    destruct (importSymmetricKey _); reflexivity. }
  split; [exact Hdec|]. split.
  - intros ck cw cp data. split.
    + intros r e H. now rewrite encrypt_eq, H.
    + intros k Hk. repeat split; intros; rewrite encrypt_eq, Hk, Hsk, Hpk;
        repeat match goal with H : _ = _ |- _ => rewrite H; clear H end;
        try destruct r; reflexivity.
  - intros [Henc Hdec']. split.
    + intros ek ed. destruct (Hdec' ek) as [e He]. exists e.
      split; [exact He|]. now rewrite Hdec, He.
    + intros ck cw cp data k Hk.
      destruct (Henc cw (arrayToHexString (EncryptionKey.key k))) as [ew He].
      exists ew. split; [exact He|].
      rewrite !encrypt_eq, Hk, Hsk, Hpk, He. repeat split.
      * now destruct (pgp_encrypt cp _ data).
      * intros ciphertext H. now rewrite H.
      * intros ep H. now rewrite H.
Qed.

(** C3. [exportMasterKeys] on an Uninitialized manager resolves with two
    empty strings.  In every state it resolves (never rejects), leaves
    the instance as it was and resolves with the same value when called
    again.  What it returns is the stored serialized texts and nothing
    else: each field is the text stored for it, character for character,
    or the empty string when none is stored, so the value is the same
    for two instances that hold the same texts, whatever key handles
    they hold. *)
Theorem exportMasterKeys_is_accessor :
  (forall this,
      Uninitialized this ->
      exportMasterKeys (Error := Error) this
      = (Fulfilled (MasterKeys.mk "" ""), this)) /\
  (forall this,
      exists keys,
        exportMasterKeys (Error := Error) this = (Fulfilled keys, this) /\
        exportMasterKeys (Error := Error) (snd (exportMasterKeys (Error := Error) this))
        = (Fulfilled keys, this) /\
        (forall skText, privateKeyEncryptedText this = Some skText ->
                        MasterKeys.privateKey keys = skText) /\
        (privateKeyEncryptedText this = None ->
         MasterKeys.privateKey keys = "") /\
        (forall pkText, publicKeyText this = Some pkText ->
                        MasterKeys.publicKey keys = pkText) /\
        (publicKeyText this = None -> MasterKeys.publicKey keys = "")) /\
  (forall this skText pkText,
      privateKeyEncryptedText this = Some skText ->
      publicKeyText this = Some pkText ->
      exportMasterKeys (Error := Error) this
      = (Fulfilled (MasterKeys.mk skText pkText), this)) /\
  (forall this this',
      privateKeyEncryptedText this = privateKeyEncryptedText this' ->
      publicKeyText this = publicKeyText this' ->
      fst (exportMasterKeys (Error := Error) this)
      = fst (exportMasterKeys (Error := Error) this')).
Proof.
  split; [|split; [|split]].
  - intros this HU.
    destruct (Uninitialized_fields HU) as (_ & _ & Ht1 & Ht2).
    now rewrite exportMasterKeys_eq, Ht1, Ht2.
  - intros this. eexists. rewrite !exportMasterKeys_eq. cbn [snd].
    split; [reflexivity|]. split; [reflexivity|].
    cbn [MasterKeys.privateKey MasterKeys.publicKey].
    repeat split; intros; 
      match goal with H : _ = _ |- _ => rewrite H end;
      first [apply or_empty_Some | reflexivity].
  - intros this skText pkText H1 H2.
    now rewrite exportMasterKeys_eq, H1, H2, !or_empty_Some.
  - intros this this' H1 H2. rewrite !exportMasterKeys_eq. cbn [fst].
    now rewrite H1, H2.
Qed.

(** C4. After a [load] that resolved, [exportMasterKeys] resolves with
    exactly the two strings [load] was given. *)
Theorem load_then_export r (encryptedPrivateKey publicKey : string) this this' :
  fst (load r encryptedPrivateKey publicKey this) = Fulfilled this' ->
  exportMasterKeys (Error := Error)
    (snd (load r encryptedPrivateKey publicKey this))
  = (Fulfilled (MasterKeys.mk encryptedPrivateKey publicKey),
     snd (load r encryptedPrivateKey publicKey this)).
Proof.
  intros H. rewrite load_eq in *.
  destruct (all_settled _ _ _) as [keysObj|]; [|discriminate].
  cbn [fst snd] in *. rewrite exportMasterKeys_eq.
  cbn [initialised privateKeyEncryptedText publicKeyText].
  now rewrite !or_empty_Some.
Qed.

(** C5, as the code has it.  When the manager's passphrase is not the
    one the private key was generated under, and the engine protects
    private keys by their passphrase, [load] rejects, returns no manager
    and leaves the instance as it was.  The reason is the one of the
    private-key decryption when the public-key import is fulfilled or
    when the private-key decryption rejects first; otherwise it is the
    reason of the public-key import: when the import rejects too and
    rejects first, [load] rejects with the import's reason.  [load]
    resolves only if the
    private-key decryption and the public-key import are both
    fulfilled. *)
Theorem load_wrong_passphrase_rejects this :
  passphrase_protects pgpService ->
  forall (c : Entropy) (passphrase0 userId0 : string) (kp : PGPKeyPair.t)
         (r : race) (publicKey : string),
    generateKeyPair c passphrase0 userId0 = Fulfilled kp ->
    passphrase this <> passphrase0 ->
    exists e,
      decryptPrivateKey (PGPKeyPair.privateKey kp) (passphrase this)
      = Rejected e /\
      (exists e',
          load r (PGPKeyPair.privateKey kp) publicKey this
          = (Rejected e', this) /\
          (e' = e \/ readPublicKey publicKey = Rejected e')) /\
      (forall pk, readPublicKey publicKey = Fulfilled pk ->
                  load r (PGPKeyPair.privateKey kp) publicKey this
                  = (Rejected e, this)) /\
      load FirstRejectsFirst (PGPKeyPair.privateKey kp) publicKey this
      = (Rejected e, this) /\
      (forall e2,
          readPublicKey publicKey = Rejected e2 ->
          load SecondRejectsFirst (PGPKeyPair.privateKey kp) publicKey this
          = (Rejected e2, this)) /\
      (forall r' epk pub this',
          fst (load r' epk pub this) = Fulfilled this' ->
          exists sk pk,
            decryptPrivateKey epk (passphrase this) = Fulfilled sk /\
            readPublicKey pub = Fulfilled pk).
Proof.
  intros Hprot c passphrase0 userId0 kp r publicKey Hgen Hne.
  destruct (Hprot c passphrase0 userId0 (passphrase this) kp Hgen Hne)
    as [e He].
  exists e. split; [exact He|]. rewrite !load_eq, He.
  repeat split.
  - destruct (readPublicKey publicKey) as [pk|e2], r; simpl; eauto.
  - intros pk Hpk. now rewrite Hpk.
  - destruct (readPublicKey publicKey); reflexivity.
  - intros e2 H2. now rewrite H2.
  - intros r' epk pub this' H. rewrite load_eq in H.
    destruct (all_settled _ _ _) as [keysObj|] eqn:Hall; [|discriminate].
    apply all_settled_fulfilled in Hall. destruct Hall as [H1 H2]. eauto.
Qed.


(** C7. [decrypt] rejects whenever the key unwrap rejects, with the
    reason of the unwrap unchanged, and whenever the payload decryption
    under the recovered key rejects.  An item is returned only when both
    steps were fulfilled, and its [value] is then what the payload
    decryption was fulfilled with: a rejected [decrypt] carries no
    item. *)
Theorem decrypt_rejections this (encryptedKey encryptedData : string) :
  (forall e,
      decryptAsymmetric (privateKey this) (publicKey this) encryptedKey
      = Rejected e ->
      decrypt encryptedKey encryptedData this = (Rejected e, this)) /\
  (forall e,
      fst (decryptKey encryptedKey this) = Rejected e ->
      decrypt encryptedKey encryptedData this = (Rejected e, this)) /\
  (forall k e,
      fst (decryptKey encryptedKey this) = Fulfilled k ->
      pgp_decrypt (DecryptedKey.key k) encryptedData = Rejected e ->
      decrypt encryptedKey encryptedData this = (Rejected e, this)) /\
  (forall item,
      fst (decrypt encryptedKey encryptedData this) = Fulfilled item ->
      exists k,
        fst (decryptKey encryptedKey this) = Fulfilled k /\
        pgp_decrypt (DecryptedKey.key k) encryptedData
        = Fulfilled (E2EEItem.value item) /\
        E2EEItem.key item = DecryptedKey.key k /\
        E2EEItem.keyObj item = DecryptedKey.keyObj k).
Proof.
  repeat split.
  - intros e H. rewrite decrypt_eq, decryptKey_eq. cbn [fst]. now rewrite H.
  - intros e H. now rewrite decrypt_eq, H.
  - intros k e Hk H. now rewrite decrypt_eq, Hk, H.
  - intros item H. rewrite decrypt_eq in H. cbn [fst] in H.
    destruct (fst (decryptKey encryptedKey this)) as [k|]; [|discriminate].
    destruct (pgp_decrypt _ _) as [v|] eqn:Hv; [|discriminate].
    injection H as <-. exists k. now rewrite Hv.
Qed.

(** C9. [encrypt], [decrypt] and [exportMasterKeys], and the private
    [encryptKey] and [decryptKey] they call, leave every field of the
    instance as it was, in every state and whatever they settle with:
    only [build] and [load] assign fields. *)
Theorem item_operations_leave_instance this :
  (forall (ck cw cp : Entropy) (r : race) (data : string),
      snd (encrypt ck cw cp r data this) = this) /\
  (forall encryptedKey encryptedData : string,
      snd (decrypt encryptedKey encryptedData this) = this) /\
  snd (exportMasterKeys (Error := Error) this) = this /\
  (forall (c : Entropy) (key : Uint8Array),
      snd (encryptKey c key this) = this) /\
  (forall encryptedKey : string, snd (decryptKey encryptedKey this) = this).
Proof.
  repeat split; intros.
  - now rewrite encrypt_eq.
  - now rewrite decrypt_eq.
  - now rewrite decryptKey_eq.
Qed.

(** C10. [load] checks each key alone.  Whenever the private key
    decrypts under the manager's passphrase and the public key parses,
    [load] resolves and stores both handles and both texts; and it
    resolves exactly when these two operations are fulfilled.  Nothing
    relates the two keys to each other. *)
Theorem load_checks_each_key_alone this (r : race)
    (encryptedPrivateKey publicKey : string) :
  (forall sk pk,
      decryptPrivateKey encryptedPrivateKey (passphrase this) = Fulfilled sk ->
      readPublicKey publicKey = Fulfilled pk ->
      load r encryptedPrivateKey publicKey this
      = (Fulfilled (initialised this sk pk encryptedPrivateKey publicKey),
         initialised this sk pk encryptedPrivateKey publicKey)) /\
  ((exists this', fst (load r encryptedPrivateKey publicKey this)
                  = Fulfilled this') <->
   (exists sk, decryptPrivateKey encryptedPrivateKey (passphrase this)
               = Fulfilled sk) /\
   (exists pk, readPublicKey publicKey = Fulfilled pk)).
Proof.
  split.
  - intros sk pk Hsk Hpk. now rewrite load_eq, Hsk, Hpk.
  - rewrite load_eq. split.
    + intros [this' H].
      destruct (all_settled _ _ _) as [keysObj|] eqn:Hall; [|discriminate].
      apply all_settled_fulfilled in Hall. destruct Hall as [H1 H2].
      split; eauto.
    + intros [[sk Hsk] [pk Hpk]]. rewrite Hsk, Hpk. simpl. eauto.
Qed.

End Envelope.

(** ** The protocol on the reference collaborators *)

(** C1 as stated fails.  The reference engine inverts its own
    encryptions under the handles of one pair, and its hex encoding
    round-trips.  The manager that loaded the private key of ["user-1"]
    with the public key of ["user-2"] is Ready; [encrypt] resolves on it
    and [decrypt] of that item rejects.  And on the manager of the
    scenario, with a symmetric engine that imports no key, [encrypt]
    resolves and [decrypt] of that item rejects at the key import. *)
Lemma round_trip_rejects :
  (forall id, asymmetric_inverse (pgpService := Sim.pgpService) id id) /\
  payload_inverse Sim.pgpService /\
  hex_inverse Sim.encoding /\
  load FirstRejectsFirst "1c1o1r1r1e1c1t1-1h1o1r1s1e0user-1" "1p1u1b0user-2"
    Sim.fresh
  = (Fulfilled Sim.mismatched, Sim.mismatched) /\
  Ready Sim.mismatched /\
  fst (encrypt [x0a; xff] [] [] FirstRejectsFirst "hello world" Sim.mismatched)
  = Fulfilled (E2EEItemEncrypted.mk "1u1s1e1r1-1201u1s1e1r1-1100aff"
                 "101a1f1f0hello world" [x0a; xff]) /\
  decrypt "1u1s1e1r1-1201u1s1e1r1-1100aff" "101a1f1f0hello world"
    Sim.mismatched
  = (Rejected Sim.WrongKey, Sim.mismatched) /\
  Ready Sim.provisioned /\
  fst (encrypt (cryptoSvc := Sealed.cryptoSvc)
         [x0a; xff] [] [] FirstRejectsFirst "hello world" Sim.provisioned)
  = Fulfilled (E2EEItemEncrypted.mk "1u1s1e1r1-1101u1s1e1r1-1100aff"
                 "101a1f1f0hello world" [x0a; xff]) /\
  decrypt (cryptoSvc := Sealed.cryptoSvc)
    "1u1s1e1r1-1101u1s1e1r1-1100aff" "101a1f1f0hello world" Sim.provisioned
  = (Rejected Sim.MalformedKey, Sim.provisioned).
Proof.
  split; [exact sim_asymmetric_inverse|].
  split; [exact sim_payload_inverse|].
  split; [exact sim_hex_inverse|].
  repeat split.
Qed.

(** C1 as the code has it, on the scenario: [encrypt "hello world"] then
    [decrypt]. *)
Lemma encrypt_decrypt_round_trip_witness :
  Ready Sim.provisioned /\
  exists k keyObj,
    createEncryptionKey [x0a; xff] = Fulfilled k /\
    decrypt "1u1s1e1r1-1101u1s1e1r1-1100aff" "101a1f1f0hello world"
      (snd (encrypt [x0a; xff] [] [] FirstRejectsFirst "hello world"
              Sim.provisioned))
    = (Fulfilled (E2EEItem.mk keyObj (arrayToHexString (EncryptionKey.key k))
                    "hello world"),
       Sim.provisioned).
Proof.
  split; [reflexivity|].
  apply (@encrypt_decrypt_round_trip _ _ _ _ _ Sim.pgpService Sim.cryptoSvc
           Sim.encoding Sim.provisioned)
    with (item := E2EEItemEncrypted.mk "1u1s1e1r1-1101u1s1e1r1-1100aff"
                    "101a1f1f0hello world" [x0a; xff]).
  - reflexivity.
  - intros sk pk Hsk Hpk. injection Hsk as <-. injection Hpk as <-.
    apply sim_asymmetric_inverse.
  - exact sim_payload_inverse.
  - exact sim_hex_inverse.
  - exact sim_import_accepts_generated.
  - reflexivity.
Defined.



(** C2 as stated fails.  On a manager that was only constructed, the
    absent key handles reach the engine: with the reference engine the
    rejection of [decrypt] and [encrypt] is the engine's own, for a
    missing key, and with an engine that accepts absent key handles
    [encrypt] and [decrypt] resolve and [decrypt] returns the
    plaintext. *)
Lemma uninitialized_operations_resolve :
  Uninitialized Sim.fresh /\
  decryptAsymmetric (PGPService := Sim.pgpService) None None "000aff"
  = Rejected Sim.MissingKey /\
  fst (decrypt "000aff" "101a1f1f0hello world" Sim.fresh)
  = Rejected Sim.MissingKey /\
  fst (encrypt [x0a; xff] [] [] FirstRejectsFirst "hello world" Sim.fresh)
  = Rejected Sim.MissingKey /\
  fst (encrypt (pgpService := Lax.pgpService)
         [x0a; xff] [] [] FirstRejectsFirst "hello world" Sim.fresh)
  = Fulfilled (E2EEItemEncrypted.mk "000aff" "101a1f1f0hello world"
                 [x0a; xff]) /\
  fst (decrypt (pgpService := Lax.pgpService)
         "000aff" "101a1f1f0hello world" Sim.fresh)
  = Fulfilled (E2EEItem.mk [x0a; xff] "0aff" "hello world").
Proof. repeat split. Qed.

(** C2 as the code has it, on the reference engine, which rejects
    absent handles. *)
Lemma uninitialized_defers_to_engine_witness :
  (forall ek ed : string,
      exists e,
        decryptAsymmetric None None ek = Rejected e /\
        decrypt ek ed Sim.fresh = (Rejected e, Sim.fresh)) /\
  (forall (ck cw cp : Uint8Array) (data : string) k,
      createEncryptionKey ck = Fulfilled k ->
      exists ew,
        encryptAsymmetric cw None None
          (arrayToHexString (EncryptionKey.key k)) = Rejected ew /\
        encrypt ck cw cp FirstRejectsFirst data Sim.fresh
        = (Rejected ew, Sim.fresh) /\
        (forall ciphertext,
            pgp_encrypt cp (arrayToHexString (EncryptionKey.key k)) data
            = Fulfilled ciphertext ->
            encrypt ck cw cp SecondRejectsFirst data Sim.fresh
            = (Rejected ew, Sim.fresh)) /\
        (forall ep,
            pgp_encrypt cp (arrayToHexString (EncryptionKey.key k)) data
            = Rejected ep ->
            encrypt ck cw cp SecondRejectsFirst data Sim.fresh
            = (Rejected ep, Sim.fresh))).
Proof.
  apply (proj2 (proj2 (@uninitialized_defers_to_engine _ _ _ _ _
                         Sim.pgpService Sim.cryptoSvc Sim.encoding Sim.fresh
                         eq_refl))).
  exact sim_rejects_absent_handles.
Defined.

(** C3 on the scenario, before and after [build]. *)
Lemma exportMasterKeys_is_accessor_witness :
  exportMasterKeys (Error := Sim.error) Sim.fresh
  = (Fulfilled (MasterKeys.mk "" ""), Sim.fresh) /\
  exportMasterKeys (Error := Sim.error) Sim.provisioned
  = (Fulfilled (MasterKeys.mk "1c1o1r1r1e1c1t1-1h1o1r1s1e0user-1"
                  "1p1u1b0user-1"),
     Sim.provisioned).
Proof.
  split.
  - apply (proj1 (@exportMasterKeys_is_accessor Sim.error string string)).
    reflexivity.
  - apply (proj1 (proj2 (proj2 (@exportMasterKeys_is_accessor Sim.error
                                  string string))));
      reflexivity.
Defined.

(** C4 on the scenario: [load] of the two texts that [build] made. *)
Lemma load_then_export_witness :
  exportMasterKeys (Error := Sim.error)
    (snd (load FirstRejectsFirst "1c1o1r1r1e1c1t1-1h1o1r1s1e0user-1"
            "1p1u1b0user-1" Sim.fresh))
  = (Fulfilled (MasterKeys.mk "1c1o1r1r1e1c1t1-1h1o1r1s1e0user-1"
                  "1p1u1b0user-1"),
     snd (load FirstRejectsFirst "1c1o1r1r1e1c1t1-1h1o1r1s1e0user-1"
            "1p1u1b0user-1" Sim.fresh)).
Proof.
  apply (@load_then_export _ _ _ _ Sim.pgpService FirstRejectsFirst
           "1c1o1r1r1e1c1t1-1h1o1r1s1e0user-1" "1p1u1b0user-1"
           Sim.fresh Sim.provisioned).
  reflexivity.
Defined.

(** C5 as stated fails: the private key of the scenario is loaded under
    another passphrase together with a public key text that does not
    parse, and the import rejects first.  [load] rejects with the reason
    of the public-key import, not with the reason of the private-key
    decryption. *)
Lemma load_wrong_passphrase_other_reason :
  generateKeyPair [x00] "correct-horse" "user-1"
  = Fulfilled (Sim.keyPair "correct-horse" "user-1") /\
  passphrase Sim.forgetful <> "correct-horse" /\
  decryptPrivateKey
    (PGPKeyPair.privateKey (Sim.keyPair "correct-horse" "user-1"))
    (passphrase Sim.forgetful)
  = Rejected Sim.BadPassphrase /\
  load SecondRejectsFirst
    (PGPKeyPair.privateKey (Sim.keyPair "correct-horse" "user-1")) "garbage"
    Sim.forgetful
  = (Rejected Sim.MalformedKey, Sim.forgetful) /\
  Sim.MalformedKey <> Sim.BadPassphrase.
Proof. repeat split; discriminate. Qed.

(** C5 as the code has it, on the scenario under the wrong passphrase,
    with a public key text that does not parse. *)
Lemma load_wrong_passphrase_rejects_witness :
  exists e,
    decryptPrivateKey
      (PGPKeyPair.privateKey (Sim.keyPair "correct-horse" "user-1"))
      (passphrase Sim.forgetful)
    = Rejected e /\
    (exists e',
        load SecondRejectsFirst
          (PGPKeyPair.privateKey (Sim.keyPair "correct-horse" "user-1"))
          "garbage" Sim.forgetful
        = (Rejected e', Sim.forgetful) /\
        (e' = e \/ readPublicKey "garbage" = Rejected e')) /\
    (forall pk, readPublicKey "garbage" = Fulfilled pk ->
                load SecondRejectsFirst
                  (PGPKeyPair.privateKey (Sim.keyPair "correct-horse" "user-1"))
                  "garbage" Sim.forgetful
                = (Rejected e, Sim.forgetful)) /\
    load FirstRejectsFirst
      (PGPKeyPair.privateKey (Sim.keyPair "correct-horse" "user-1"))
      "garbage" Sim.forgetful
    = (Rejected e, Sim.forgetful) /\
    (forall e2,
        readPublicKey "garbage" = Rejected e2 ->
        load SecondRejectsFirst
          (PGPKeyPair.privateKey (Sim.keyPair "correct-horse" "user-1"))
          "garbage" Sim.forgetful
        = (Rejected e2, Sim.forgetful)) /\
    (forall r' epk pub this',
        fst (load r' epk pub Sim.forgetful) = Fulfilled this' ->
        exists sk pk,
          decryptPrivateKey epk (passphrase Sim.forgetful) = Fulfilled sk /\
          readPublicKey pub = Fulfilled pk).
Proof.
  apply (@load_wrong_passphrase_rejects _ _ _ _ Sim.pgpService Sim.forgetful
           sim_passphrase_protects [x00] "correct-horse" "user-1"
           (Sim.keyPair "correct-horse" "user-1") SecondRejectsFirst
           "garbage").
  - reflexivity.
  - discriminate.
Defined.


(** C7 on the scenario: a wrapped key that was cut short. *)
Lemma decrypt_rejections_witness :
  decrypt "1u1s1e1r1-1101u1s1e1r1-11" "101a1f1f0hello world" Sim.provisioned
  = (Rejected Sim.Tampered, Sim.provisioned).
Proof.
  apply (proj1 (@decrypt_rejections _ _ _ _ _ Sim.pgpService Sim.cryptoSvc
                  Sim.encoding Sim.provisioned "1u1s1e1r1-1101u1s1e1r1-11"
                  "101a1f1f0hello world")).
  reflexivity.
Defined.

(** C10 on the reference engine: the private key of ["user-1"] and the
    public key of ["user-2"] load together, although the engine cannot
    unwrap with the one what it wrapped with the other. *)
Lemma load_checks_each_key_alone_witness :
  load FirstRejectsFirst "1c1o1r1r1e1c1t1-1h1o1r1s1e0user-1" "1p1u1b0user-2"
    Sim.fresh
  = (Fulfilled (initialised Sim.fresh "user-1" "user-2"
                  "1c1o1r1r1e1c1t1-1h1o1r1s1e0user-1" "1p1u1b0user-2"),
     initialised Sim.fresh "user-1" "user-2"
       "1c1o1r1r1e1c1t1-1h1o1r1s1e0user-1" "1p1u1b0user-2") /\
  decryptAsymmetric (Some "user-1") (Some "user-2")
    "1u1s1e1r1-1201u1s1e1r1-1100aff"
  = Rejected Sim.WrongKey.
Proof.
  split; [|reflexivity].
  apply (proj1 (@load_checks_each_key_alone _ _ _ _ Sim.pgpService Sim.fresh
                  FirstRejectsFirst "1c1o1r1r1e1c1t1-1h1o1r1s1e0user-1"
                  "1p1u1b0user-2")); reflexivity.
Defined.

(** * Further properties of the class *)
Section Lifecycle.

Context {Error Entropy PGPPrivateKey PGPPublicKey CryptoKey : Type}.
Context {pgpService : PGPService Error Entropy PGPPrivateKey PGPPublicKey}.
Context {cryptoSvc : EncryptionService Error Entropy CryptoKey}.
Context {encoding : EncodingUtils}.

Implicit Types this other : @Self PGPPrivateKey PGPPublicKey.

(** A resolved [load] or [build], spelled out. *)
Lemma load_fulfilled_inv r epk pub this this' :
  fst (load r epk pub this) = Fulfilled this' ->
  exists sk pk,
    decryptPrivateKey epk (passphrase this) = Fulfilled sk /\
    readPublicKey pub = Fulfilled pk /\
    this' = initialised this sk pk epk pub /\
    load r epk pub this = (Fulfilled this', this').
Proof.
  rewrite load_eq.
  destruct (all_settled _ _ _) as [[sk pk]|] eqn:Hall; [|discriminate].
  apply all_settled_fulfilled in Hall. destruct Hall as [H1 H2].
  cbn [fst snd] in *. intros H. injection H as <-.
  exists sk, pk. repeat split; assumption.
Qed.

Lemma build_fulfilled_inv c r this this' :
  fst (build c r this) = Fulfilled this' ->
  exists kp sk pk,
    generateKeyPair c (passphrase this) (userId this) = Fulfilled kp /\
    decryptPrivateKey (PGPKeyPair.privateKey kp) (passphrase this)
    = Fulfilled sk /\
    readPublicKey (PGPKeyPair.publicKey kp) = Fulfilled pk /\
    this' = initialised this sk pk (PGPKeyPair.privateKey kp)
              (PGPKeyPair.publicKey kp) /\
    build c r this = (Fulfilled this', this').
Proof.
  rewrite build_eq.
  destruct (generateKeyPair _ _ _) as [kp|] eqn:Hkp; [|discriminate].
  intros H. destruct (load_fulfilled_inv _ _ _ _ H) as (sk & pk & H1 & H2 & E & L).
  exists kp, sk, pk. repeat split; assumption.
Qed.

(** What one call can do to the instance: nothing, or assign the four
    key fields to handles that the engine read from the texts stored
    with them, under the instance's passphrase. *)
Lemma invoke_cases (i : invocation Entropy) this :
  invoke i this = this \/
  exists sk pk skText pkText,
    invoke i this = initialised this sk pk skText pkText /\
    decryptPrivateKey skText (passphrase this) = Fulfilled sk /\
    readPublicKey pkText = Fulfilled pk.
Proof.
  destruct i as [c r|r epk pub| |ck cw cp r data|ek ed]; cbn [invoke].
  - destruct (fst (build c r this)) as [this'|e] eqn:H.
    + destruct (build_fulfilled_inv _ _ _ H)
        as (kp & sk & pk & _ & H1 & H2 & -> & ->).
      right. now exists sk, pk, (PGPKeyPair.privateKey kp),
                 (PGPKeyPair.publicKey kp).
    + left. rewrite build_eq in *.
      destruct (generateKeyPair _ _ _); [|reflexivity].
      rewrite load_eq in *. now destruct (all_settled _ _ _).
  - destruct (fst (load r epk pub this)) as [this'|e] eqn:H.
    + destruct (load_fulfilled_inv _ _ _ _ H) as (sk & pk & H1 & H2 & -> & ->).
      right. now exists sk, pk, epk, pub.
    + left. rewrite load_eq in *. now destruct (all_settled _ _ _).
  - now left.
  - left. now rewrite encrypt_eq.
  - left. now rewrite decrypt_eq.
Qed.

(** X1. [build] resolves exactly when the key generation, the
    decryption of the generated private key under the instance's
    passphrase and the import of the generated public key are all
    fulfilled; it then resolves with the instance itself, which holds
    the two handles and the two generated texts and is Ready, with its
    user id and passphrase as before. *)
Theorem build_resolves_exactly_when (c : Entropy) (r : race) this :
  (forall kp sk pk,
      generateKeyPair c (passphrase this) (userId this) = Fulfilled kp ->
      decryptPrivateKey (PGPKeyPair.privateKey kp) (passphrase this)
      = Fulfilled sk ->
      readPublicKey (PGPKeyPair.publicKey kp) = Fulfilled pk ->
      build c r this
      = (Fulfilled (initialised this sk pk (PGPKeyPair.privateKey kp)
                      (PGPKeyPair.publicKey kp)),
         initialised this sk pk (PGPKeyPair.privateKey kp)
           (PGPKeyPair.publicKey kp))) /\
  (forall this',
      fst (build c r this) = Fulfilled this' ->
      snd (build c r this) = this' /\
      Ready this' /\
      userId this' = userId this /\
      passphrase this' = passphrase this /\
      exists kp sk pk,
        generateKeyPair c (passphrase this) (userId this) = Fulfilled kp /\
        decryptPrivateKey (PGPKeyPair.privateKey kp) (passphrase this)
        = Fulfilled sk /\
        readPublicKey (PGPKeyPair.publicKey kp) = Fulfilled pk /\
        privateKey this' = Some sk /\
        publicKey this' = Some pk /\
        privateKeyEncryptedText this' = Some (PGPKeyPair.privateKey kp) /\
        publicKeyText this' = Some (PGPKeyPair.publicKey kp)).
Proof.
  split.
  - intros kp sk pk Hkp Hsk Hpk. now rewrite build_eq, Hkp, load_eq, Hsk, Hpk.
  - intros this' H.
    destruct (build_fulfilled_inv _ _ _ H)
      as (kp & sk & pk & Hkp & Hsk & Hpk & -> & ->).
    repeat split. exists kp, sk, pk. repeat split; assumption.
Qed.

(** X2. After a [build] that resolved, [exportMasterKeys] resolves with
    exactly the two texts that the key generation returned. *)
Theorem build_then_export (c : Entropy) (r : race) this this' :
  fst (build c r this) = Fulfilled this' ->
  exists kp,
    generateKeyPair c (passphrase this) (userId this) = Fulfilled kp /\
    exportMasterKeys (Error := Error) (snd (build c r this))
    = (Fulfilled (MasterKeys.mk (PGPKeyPair.privateKey kp)
                    (PGPKeyPair.publicKey kp)),
       this').
Proof.
  intros H.
  destruct (build_fulfilled_inv _ _ _ H)
    as (kp & sk & pk & Hkp & _ & _ & -> & ->).
  exists kp. split; [exact Hkp|].
  cbn [snd]. rewrite exportMasterKeys_eq.
  cbn [initialised privateKeyEncryptedText publicKeyText].
  now rewrite !or_empty_Some.
Qed.

(** X3. A [load] that resolves replaces all four key fields: the
    instance it leaves does not depend on the key fields held before,
    only on the passphrase and the user id. *)
Theorem load_replaces_keys (r : race) (encryptedPrivateKey publicKey : string)
    this other this' :
  passphrase other = passphrase this ->
  userId other = userId this ->
  fst (load r encryptedPrivateKey publicKey this) = Fulfilled this' ->
  load r encryptedPrivateKey publicKey other = (Fulfilled this', this').
Proof.
  intros Hp Hu H.
  destruct (load_fulfilled_inv _ _ _ _ H) as (sk & pk & Hsk & Hpk & -> & _).
  rewrite load_eq, Hp, Hsk, Hpk. cbn [all_settled fst snd].
  unfold initialised. now rewrite Hp, Hu.
Qed.

(** The instances a caller can reach from a constructed one. *)
Lemma reachable_inv (userId0 passphrase0 : string)
    (calls : list (invocation Entropy)) this :
  (this = constructor userId0 passphrase0 \/
   exists sk pk skText pkText,
     this = initialised (constructor userId0 passphrase0) sk pk skText pkText /\
     decryptPrivateKey skText passphrase0 = Fulfilled sk /\
     readPublicKey pkText = Fulfilled pk) ->
  invoke_all calls this = constructor userId0 passphrase0 \/
  exists sk pk skText pkText,
    invoke_all calls this
    = initialised (constructor userId0 passphrase0) sk pk skText pkText /\
    decryptPrivateKey skText passphrase0 = Fulfilled sk /\
    readPublicKey pkText = Fulfilled pk.
Proof.
  revert this. induction calls as [|i calls IH]; intros this H.
  - exact H.
  - cbn [invoke_all fold_left]. apply IH.
    destruct (invoke_cases i this) as [->|(sk & pk & t1 & t2 & -> & H1 & H2)].
    + exact H.
    + right. exists sk, pk, t1, t2.
      destruct H as [->|(sk0 & pk0 & t3 & t4 & -> & _ & _)];
        repeat split; assumption.
Qed.

(** X4. Whatever sequence of calls a caller makes on a constructed
    instance, and whatever they settle with, the instance is either
    still as constructed (Uninitialized) or Ready with all four key
    fields assigned together: the user id and the passphrase are those
    of the construction, and the two handles are what the engine reads
    from the two stored texts under that passphrase.  No call leaves
    only some of the key fields assigned. *)
Theorem reachable_instances (userId0 passphrase0 : string)
    (calls : list (invocation Entropy)) :
  (invoke_all calls (constructor userId0 passphrase0)
   = constructor userId0 passphrase0 /\
   Uninitialized (invoke_all calls (constructor userId0 passphrase0))) \/
  (Ready (invoke_all calls (constructor userId0 passphrase0)) /\
   exists sk pk skText pkText,
     invoke_all calls (constructor userId0 passphrase0)
     = mkOpenE2EE passphrase0 (Some sk) (Some skText) (Some pkText) (Some pk)
         userId0 /\
     decryptPrivateKey skText passphrase0 = Fulfilled sk /\
     readPublicKey pkText = Fulfilled pk).
Proof.
  destruct (@reachable_inv userId0 passphrase0 calls
              (constructor userId0 passphrase0) (or_introl eq_refl))
    as [E|(sk & pk & t1 & t2 & E & H1 & H2)].
  - left. rewrite E. split; reflexivity.
  - right. rewrite E. split; [reflexivity|].
    exists sk, pk, t1, t2. repeat split; assumption.
Qed.

(** X5. There is no way back from Ready: after any further sequence of
    calls, failed [build]s and [load]s included, a Ready instance is
    Ready. *)
Theorem Ready_is_kept (calls : list (invocation Entropy)) this :
  Ready this -> Ready (invoke_all calls this).
Proof.
  revert this. induction calls as [|i calls IH]; intros this H.
  - exact H.
  - cbn [invoke_all fold_left]. apply IH.
    destruct (invoke_cases i this) as [->|(sk & pk & t1 & t2 & -> & _)].
    + exact H.
    + reflexivity.
Qed.

(** X6. Persisting and resuming.  When an instance reached from a
    construction is Ready, [load] of the two texts that
    [exportMasterKeys] returns, on a new instance constructed with the
    same user id and passphrase, resolves and leaves that instance equal
    to the first, whatever call made the first Ready and in whatever
    order the two engine calls of [load] settle. *)
Theorem exported_keys_reload (userId0 passphrase0 : string)
    (calls : list (invocation Entropy)) (r : race) (keys : MasterKeys.t) :
  Ready (invoke_all calls (constructor userId0 passphrase0)) ->
  fst (exportMasterKeys (Error := Error)
         (invoke_all calls (constructor userId0 passphrase0)))
  = Fulfilled keys ->
  load r (MasterKeys.privateKey keys) (MasterKeys.publicKey keys)
    (constructor userId0 passphrase0)
  = (Fulfilled (invoke_all calls (constructor userId0 passphrase0)),
     invoke_all calls (constructor userId0 passphrase0)).
Proof.
  intros HR Hk.
  destruct (@reachable_inv userId0 passphrase0 calls
              (constructor userId0 passphrase0) (or_introl eq_refl))
    as [E|(sk & pk & t1 & t2 & E & H1 & H2)].
  - rewrite E in HR. discriminate.
  - rewrite E in *. rewrite exportMasterKeys_eq in Hk.
    cbn [fst initialised privateKeyEncryptedText publicKeyText] in Hk.
    rewrite !or_empty_Some in Hk. injection Hk as <-.
    cbn [MasterKeys.privateKey MasterKeys.publicKey].
    rewrite load_eq. cbn [constructor passphrase]. now rewrite H1, H2.
Qed.

End Lifecycle.

Section Items.

Context {Error Entropy PGPPrivateKey PGPPublicKey CryptoKey : Type}.
Context {pgpService : PGPService Error Entropy PGPPrivateKey PGPPublicKey}.
Context {cryptoSvc : EncryptionService Error Entropy CryptoKey}.
Context {encoding : EncodingUtils}.

Implicit Types this other : @Self PGPPrivateKey PGPPublicKey.

(** Unwrapping what was wrapped under the handles [sk] and [pk]. *)
Lemma unwrap_wrapped this sk pk (c : Entropy) (k : Uint8Array) (wrapped : string) :
  privateKey this = Some sk ->
  publicKey this = Some pk ->
  asymmetric_inverse sk pk ->
  hex_inverse encoding ->
  fst (encryptKey c k this) = Fulfilled wrapped ->
  decryptKey wrapped this
  = (match importSymmetricKey k with
     | Fulfilled keyObj =>
         Fulfilled (DecryptedKey.mk (arrayToHexString k) keyObj)
     | Rejected e => Rejected e
     end, this).
Proof.
  intros Hsk Hpk Hasym Hhex H. rewrite encryptKey_eq in H. cbn [fst] in H.
  rewrite Hsk, Hpk in H. apply Hasym in H.
  now rewrite decryptKey_eq, Hsk, Hpk, H, Hhex.
Qed.

(** What a resolved [encrypt] is made of. *)
Lemma encrypt_fulfilled_inv (ck cw cp : Entropy) (r : race) (data : string)
    this item :
  fst (encrypt ck cw cp r data this) = Fulfilled item ->
  exists k,
    createEncryptionKey ck = Fulfilled k /\
    fst (encryptKey cw (EncryptionKey.key k) this)
    = Fulfilled (E2EEItemEncrypted.encryptedKey item) /\
    pgp_encrypt cp (arrayToHexString (EncryptionKey.key k)) data
    = Fulfilled (E2EEItemEncrypted.encryptedValue item) /\
    E2EEItemEncrypted.keyObj item = EncryptionKey.keyObj k.
Proof.
  rewrite encrypt_eq. cbn [fst].
  destruct (createEncryptionKey ck) as [k|]; [|discriminate].
  destruct (all_settled _ _ _) as [enc|] eqn:Hall; [|discriminate].
  apply all_settled_fulfilled in Hall. destruct Hall as [H1 H2].
  intros H. injection H as <-. exists k. now repeat split.
Qed.

(** X7. What [encrypt] settles with.  A rejected key generation is
    returned unchanged, before any wrap or payload encryption.  With a
    key generated, [encrypt] rejects exactly when the key wrap or the
    payload encryption rejects, with the reason of one of the two.  An
    item is returned only when all three steps were fulfilled; it then
    holds the wrap of the generated key, the payload encrypted under the
    hex text of that same key, and the handle the key generation
    returned. *)
Theorem encrypt_outcomes (ck cw cp : Entropy) (r : race) (data : string) this :
  (forall e,
      createEncryptionKey ck = Rejected e ->
      encrypt ck cw cp r data this = (Rejected e, this)) /\
  (forall k e,
      createEncryptionKey ck = Fulfilled k ->
      fst (encrypt ck cw cp r data this) = Rejected e ->
      fst (encryptKey cw (EncryptionKey.key k) this) = Rejected e \/
      pgp_encrypt cp (arrayToHexString (EncryptionKey.key k)) data
      = Rejected e) /\
  (forall k,
      createEncryptionKey ck = Fulfilled k ->
      (exists e, fst (encryptKey cw (EncryptionKey.key k) this) = Rejected e) \/
      (exists e, pgp_encrypt cp (arrayToHexString (EncryptionKey.key k)) data
                 = Rejected e) ->
      exists e, encrypt ck cw cp r data this = (Rejected e, this)) /\
  (forall item,
      fst (encrypt ck cw cp r data this) = Fulfilled item ->
      exists k,
        createEncryptionKey ck = Fulfilled k /\
        fst (encryptKey cw (EncryptionKey.key k) this)
        = Fulfilled (E2EEItemEncrypted.encryptedKey item) /\
        pgp_encrypt cp (arrayToHexString (EncryptionKey.key k)) data
        = Fulfilled (E2EEItemEncrypted.encryptedValue item) /\
        E2EEItemEncrypted.keyObj item = EncryptionKey.keyObj k).
Proof.
  split; [|split; [|split]].
  - intros e H. now rewrite encrypt_eq, H.
  - intros k e Hk. rewrite encrypt_eq, encryptKey_eq, Hk. cbn [fst].
    destruct (all_settled _ _ _) eqn:Hall; [discriminate|].
    intros H. injection H as ->. now apply all_settled_rejected in Hall.
  - intros k Hk H. rewrite encrypt_eq, Hk. rewrite encryptKey_eq in H.
    cbn [fst] in H. destruct H as [[e He]|[e He]]; rewrite He.
    + destruct (pgp_encrypt cp _ data), r; simpl; eauto.
    + destruct (encryptAsymmetric cw _ _ _), r; simpl; eauto.
  - apply encrypt_fulfilled_inv.
Qed.

(** X8. What [decryptKey] settles with.  It resolves exactly when the
    asymmetric decryption and the import of the decoded key are both
    fulfilled, with the decrypted text as [key] and the imported handle
    as [keyObj].  A rejected import is returned unchanged, and [decrypt]
    then rejects with it without decrypting the payload, although the
    payload is decrypted under the key text and not under the handle. *)
Theorem decryptKey_outcomes (encryptedKey : string) this :
  (forall key keyObj,
      decryptAsymmetric (privateKey this) (publicKey this) encryptedKey
      = Fulfilled key ->
      importSymmetricKey (hexStringToArray key) = Fulfilled keyObj ->
      decryptKey encryptedKey this
      = (Fulfilled (DecryptedKey.mk key keyObj), this)) /\
  (forall key e,
      decryptAsymmetric (privateKey this) (publicKey this) encryptedKey
      = Fulfilled key ->
      importSymmetricKey (hexStringToArray key) = Rejected e ->
      decryptKey encryptedKey this = (Rejected e, this) /\
      forall encryptedData,
        decrypt encryptedKey encryptedData this = (Rejected e, this)) /\
  (forall k,
      fst (decryptKey encryptedKey this) = Fulfilled k ->
      decryptAsymmetric (privateKey this) (publicKey this) encryptedKey
      = Fulfilled (DecryptedKey.key k) /\
      importSymmetricKey (hexStringToArray (DecryptedKey.key k))
      = Fulfilled (DecryptedKey.keyObj k)).
Proof.
  split; [|split].
  - intros key keyObj H1 H2. now rewrite decryptKey_eq, H1, H2.
  - intros key e H1 H2. split.
    + now rewrite decryptKey_eq, H1, H2.
    + intros ed. rewrite decrypt_eq, decryptKey_eq. cbn [fst].
      now rewrite H1, H2.
  - intros k. rewrite decryptKey_eq. cbn [fst].
    destruct (decryptAsymmetric _ _ _) as [key|]; [|discriminate].
    destruct (importSymmetricKey _) as [keyObj|] eqn:H2; [|discriminate].
    intros H. injection H as <-. now split.
Qed.

(** X9. Key wrap round trip.  On a Ready instance whose asymmetric
    engine inverts its encryption under the instance's pair and whose
    hex encoding round-trips, [decryptKey] of what [encryptKey] made of
    any key bytes settles as the import of those bytes does: fulfilled
    with the hex text of the bytes as [key] and the imported handle, or
    rejected with the import's reason. *)
Theorem encryptKey_decryptKey_round_trip this (c : Entropy) (k : Uint8Array)
    (wrapped : string) :
  Ready this ->
  (forall sk pk, privateKey this = Some sk -> publicKey this = Some pk ->
                 asymmetric_inverse sk pk) ->
  hex_inverse encoding ->
  fst (encryptKey c k this) = Fulfilled wrapped ->
  decryptKey wrapped (snd (encryptKey c k this))
  = (match importSymmetricKey k with
     | Fulfilled keyObj =>
         Fulfilled (DecryptedKey.mk (arrayToHexString k) keyObj)
     | Rejected e => Rejected e
     end, this).
Proof.
  intros HR Hasym Hhex H.
  destruct (Ready_handles HR) as (sk & pk & Hsk & Hpk).
  rewrite encryptKey_eq at 1. cbn [snd].
  exact (unwrap_wrapped this c k Hsk Hpk (Hasym sk pk Hsk Hpk) Hhex H).
Qed.

(** X10. The order in which the two promises of a [Promise.all] reject
    decides nothing but the reason reported when both reject: under any
    two orders [load], [build] and [encrypt] leave the same instance and
    resolve or reject together, with the same value when they resolve. *)
Theorem race_only_selects_reason (r r' : race) this :
  (forall encryptedPrivateKey publicKey : string,
      snd (load r encryptedPrivateKey publicKey this)
      = snd (load r' encryptedPrivateKey publicKey this) /\
      forall this',
        fst (load r encryptedPrivateKey publicKey this) = Fulfilled this' ->
        fst (load r' encryptedPrivateKey publicKey this) = Fulfilled this') /\
  (forall c : Entropy,
      snd (build c r this) = snd (build c r' this) /\
      forall this',
        fst (build c r this) = Fulfilled this' ->
        fst (build c r' this) = Fulfilled this') /\
  (forall (ck cw cp : Entropy) (data : string),
      snd (encrypt ck cw cp r data this) = snd (encrypt ck cw cp r' data this) /\
      forall item,
        fst (encrypt ck cw cp r data this) = Fulfilled item ->
        fst (encrypt ck cw cp r' data this) = Fulfilled item).
Proof.
  assert (Hload : forall epk pub,
             snd (load r epk pub this) = snd (load r' epk pub this) /\
             forall this',
               fst (load r epk pub this) = Fulfilled this' ->
               fst (load r' epk pub this) = Fulfilled this').
  { intros epk pub. rewrite !load_eq.
    destruct (decryptPrivateKey epk (passphrase this)),
      (readPublicKey pub), r, r'; simpl; split; intros;
      try reflexivity; try assumption; discriminate. }
  split; [exact Hload|split].
  - intros c. rewrite !build_eq.
    destruct (generateKeyPair _ _ _); [apply Hload|split; auto].
  - intros ck cw cp data. rewrite !encrypt_eq. cbn [fst snd].
    split; [reflexivity|].
    destruct (createEncryptionKey ck) as [k|]; [|auto].
    destruct (encryptAsymmetric cw _ _ _), (pgp_encrypt cp _ data), r, r';
      simpl; intros; try assumption; discriminate.
Qed.

(** X11. An item encrypted in one session decrypts in the next.  Let an
    instance reached from a construction be Ready, with engines that
    invert each other as in C1.  An item that [encrypt] resolved with on
    it is decrypted, to the same plaintext and key text, by a new
    instance constructed with the same user id and passphrase once it
    has loaded the texts that [exportMasterKeys] returned. *)
Theorem resumed_session_decrypts (userId0 passphrase0 : string)
    (calls : list (invocation Entropy)) (keys : MasterKeys.t)
    (ck cw cp : Entropy) (r r' : race) (P : string)
    (item : E2EEItemEncrypted.t CryptoKey) :
  Ready (invoke_all calls (constructor userId0 passphrase0)) ->
  (forall sk pk,
      privateKey (invoke_all calls (constructor userId0 passphrase0)) = Some sk ->
      publicKey (invoke_all calls (constructor userId0 passphrase0)) = Some pk ->
      asymmetric_inverse sk pk) ->
  payload_inverse pgpService ->
  hex_inverse encoding ->
  import_accepts_generated cryptoSvc ->
  fst (exportMasterKeys (Error := Error)
         (invoke_all calls (constructor userId0 passphrase0)))
  = Fulfilled keys ->
  fst (encrypt ck cw cp r P (invoke_all calls (constructor userId0 passphrase0)))
  = Fulfilled item ->
  exists k keyObj,
    createEncryptionKey ck = Fulfilled k /\
    decrypt (E2EEItemEncrypted.encryptedKey item)
      (E2EEItemEncrypted.encryptedValue item)
      (snd (load r' (MasterKeys.privateKey keys) (MasterKeys.publicKey keys)
              (constructor userId0 passphrase0)))
    = (Fulfilled (E2EEItem.mk keyObj (arrayToHexString (EncryptionKey.key k))
                    P),
       invoke_all calls (constructor userId0 passphrase0)).
Proof.
  intros HR Hasym Hpay Hhex Himp Hkeys Henc.
  destruct (@reachable_inv _ _ _ _ _ pgpService cryptoSvc encoding
              userId0 passphrase0 calls
              (constructor userId0 passphrase0) (or_introl eq_refl))
    as [E|(sk & pk & t1 & t2 & E & H1 & H2)].
  { rewrite E in HR. discriminate. }
  rewrite E in *.
  rewrite exportMasterKeys_eq in Hkeys.
  cbn [fst initialised privateKeyEncryptedText publicKeyText] in Hkeys.
  rewrite !or_empty_Some in Hkeys. injection Hkeys as <-.
  cbn [MasterKeys.privateKey MasterKeys.publicKey].
  rewrite load_eq. cbn [constructor passphrase]. rewrite H1, H2.
  cbn [all_settled fst snd].
  change (initialised (mkOpenE2EE passphrase0 None None None None userId0)
            sk pk t1 t2)
    with (initialised (constructor userId0 passphrase0) sk pk t1 t2).
  set (author := initialised (constructor userId0 passphrase0) sk pk t1 t2)
    in *.
  specialize (Hasym sk pk eq_refl eq_refl).
  destruct (encrypt_fulfilled_inv _ _ _ _ _ _ Henc) as (k & Hk & Hw & Hc & _).
  destruct (Himp ck k Hk) as [keyObj Hko].
  exists k, keyObj. split; [exact Hk|].
  rewrite decrypt_eq.
  rewrite (unwrap_wrapped author cw (EncryptionKey.key k)
             (sk := sk) (pk := pk) eq_refl eq_refl Hasym Hhex Hw).
  cbn [fst]. rewrite Hko. cbn [DecryptedKey.key DecryptedKey.keyObj].
  now rewrite (Hpay _ _ _ _ Hc).
Qed.

(** X12. The item operations read the two key handles and nothing else
    of the instance: on two instances that hold the same handles,
    whatever their passphrases, user ids and stored texts, [encrypt] and
    [decrypt] settle with the same outcome. *)
Theorem item_operations_read_handles_only this other :
  privateKey this = privateKey other ->
  publicKey this = publicKey other ->
  (forall (ck cw cp : Entropy) (r : race) (data : string),
      fst (encrypt ck cw cp r data this) = fst (encrypt ck cw cp r data other)) /\
  (forall encryptedKey encryptedData : string,
      fst (decrypt encryptedKey encryptedData this)
      = fst (decrypt encryptedKey encryptedData other)).
Proof.
  intros Hsk Hpk. split; intros.
  - rewrite !encrypt_eq. cbn [fst]. now rewrite Hsk, Hpk.
  - rewrite !decrypt_eq, !decryptKey_eq. cbn [fst]. now rewrite Hsk, Hpk.
Qed.

End Items.

(** ** The further properties on the reference collaborators *)

(** X1 on the scenario: [build] on the constructed manager. *)
Lemma build_resolves_exactly_when_witness :
  snd (build [x00] FirstRejectsFirst Sim.fresh) = Sim.provisioned /\
  Ready Sim.provisioned /\
  userId Sim.provisioned = userId Sim.fresh /\
  passphrase Sim.provisioned = passphrase Sim.fresh /\
  exists kp sk pk,
    generateKeyPair [x00] (passphrase Sim.fresh) (userId Sim.fresh)
    = Fulfilled kp /\
    decryptPrivateKey (PGPKeyPair.privateKey kp) (passphrase Sim.fresh)
    = Fulfilled sk /\
    readPublicKey (PGPKeyPair.publicKey kp) = Fulfilled pk /\
    privateKey Sim.provisioned = Some sk /\
    publicKey Sim.provisioned = Some pk /\
    privateKeyEncryptedText Sim.provisioned = Some (PGPKeyPair.privateKey kp) /\
    publicKeyText Sim.provisioned = Some (PGPKeyPair.publicKey kp).
Proof.
  apply (proj2 (@build_resolves_exactly_when _ _ _ _ Sim.pgpService [x00]
                  FirstRejectsFirst Sim.fresh)).
  reflexivity.
Defined.

(** X2 on the scenario. *)
Lemma build_then_export_witness :
  exists kp,
    generateKeyPair [x00] (passphrase Sim.fresh) (userId Sim.fresh)
    = Fulfilled kp /\
    exportMasterKeys (Error := Sim.error)
      (snd (build [x00] FirstRejectsFirst Sim.fresh))
    = (Fulfilled (MasterKeys.mk (PGPKeyPair.privateKey kp)
                    (PGPKeyPair.publicKey kp)),
       Sim.provisioned).
Proof.
  apply (@build_then_export _ _ _ _ Sim.pgpService [x00] FirstRejectsFirst
           Sim.fresh Sim.provisioned).
  reflexivity.
Defined.

(** X3: the texts of the scenario loaded on the constructed manager and
    on a manager that holds the public key of another user. *)
Lemma load_replaces_keys_witness :
  load FirstRejectsFirst "1c1o1r1r1e1c1t1-1h1o1r1s1e0user-1" "1p1u1b0user-1"
    (initialised Sim.fresh "user-1" "user-2"
       "1c1o1r1r1e1c1t1-1h1o1r1s1e0user-1" "1p1u1b0user-2")
  = (Fulfilled Sim.provisioned, Sim.provisioned).
Proof.
  apply (@load_replaces_keys _ _ _ _ Sim.pgpService FirstRejectsFirst
           "1c1o1r1r1e1c1t1-1h1o1r1s1e0user-1" "1p1u1b0user-1" Sim.fresh);
    reflexivity.
Defined.

(** X5 on the scenario: a [load] of texts that do not parse, an
    [encrypt] and a [decrypt] of a ciphertext that was not made by
    [encrypt]. *)
Lemma Ready_is_kept_witness :
  Ready (invoke_all
           [Load SecondRejectsFirst "garbage" "garbage";
            Encrypt [x0a; xff] [] [] FirstRejectsFirst "hello world";
            Decrypt "garbage" "garbage"]
           Sim.provisioned).
Proof.
  apply (@Ready_is_kept _ _ _ _ _ Sim.pgpService Sim.cryptoSvc Sim.encoding).
  reflexivity.
Defined.

(** X6 on the scenario: a failed [load], then [build]. *)
Lemma exported_keys_reload_witness :
  load SecondRejectsFirst "1c1o1r1r1e1c1t1-1h1o1r1s1e0user-1" "1p1u1b0user-1"
    (constructor "user-1" "correct-horse")
  = (Fulfilled (invoke_all [Load FirstRejectsFirst "garbage" "garbage";
                            Build [x00] FirstRejectsFirst]
                  (constructor "user-1" "correct-horse")),
     invoke_all [Load FirstRejectsFirst "garbage" "garbage";
                 Build [x00] FirstRejectsFirst]
       (constructor "user-1" "correct-horse")).
Proof.
  apply (@exported_keys_reload _ _ _ _ _ Sim.pgpService Sim.cryptoSvc
           Sim.encoding "user-1" "correct-horse"
           [Load FirstRejectsFirst "garbage" "garbage";
            Build [x00] FirstRejectsFirst]
           SecondRejectsFirst
           (MasterKeys.mk "1c1o1r1r1e1c1t1-1h1o1r1s1e0user-1" "1p1u1b0user-1"));
    reflexivity.
Defined.

(** X7 on the scenario: the key generation draws nothing. *)
Lemma encrypt_outcomes_witness :
  encrypt [] [] [] FirstRejectsFirst "hello world" Sim.provisioned
  = (Rejected Sim.EmptyKey, Sim.provisioned).
Proof.
  apply (proj1 (@encrypt_outcomes _ _ _ _ _ Sim.pgpService Sim.cryptoSvc
                  Sim.encoding [] [] [] FirstRejectsFirst "hello world"
                  Sim.provisioned)).
  reflexivity.
Defined.

(** X8 on the scenario: the wrap of the empty key text. *)
Lemma decryptKey_outcomes_witness :
  decryptKey "1u1s1e1r1-1101u1s1e1r1-110" Sim.provisioned
  = (Rejected Sim.EmptyKey, Sim.provisioned) /\
  forall encryptedData,
    decrypt "1u1s1e1r1-1101u1s1e1r1-110" encryptedData Sim.provisioned
    = (Rejected Sim.EmptyKey, Sim.provisioned).
Proof.
  apply (proj1 (proj2 (@decryptKey_outcomes _ _ _ _ _ Sim.pgpService
                         Sim.cryptoSvc Sim.encoding
                         "1u1s1e1r1-1101u1s1e1r1-110" Sim.provisioned)))
    with (key := "").
  - reflexivity.
  - reflexivity.
Defined.

(** X9 on the scenario: the key [0aff]. *)
Lemma encryptKey_decryptKey_round_trip_witness :
  decryptKey "1u1s1e1r1-1101u1s1e1r1-1100aff"
    (snd (encryptKey [] [x0a; xff] Sim.provisioned))
  = (match importSymmetricKey [x0a; xff] with
     | Fulfilled keyObj =>
         Fulfilled (DecryptedKey.mk (arrayToHexString [x0a; xff]) keyObj)
     | Rejected e => Rejected e
     end, Sim.provisioned).
Proof.
  apply (@encryptKey_decryptKey_round_trip _ _ _ _ _ Sim.pgpService
           Sim.cryptoSvc Sim.encoding Sim.provisioned [] [x0a; xff]).
  - reflexivity.
  - intros sk pk Hsk Hpk. injection Hsk as <-. injection Hpk as <-.
    apply sim_asymmetric_inverse.
  - exact sim_hex_inverse.
  - reflexivity.
Defined.

(** X10 on the scenario: [load] under the other order. *)
Lemma race_only_selects_reason_witness :
  fst (load SecondRejectsFirst "1c1o1r1r1e1c1t1-1h1o1r1s1e0user-1"
         "1p1u1b0user-1" Sim.fresh)
  = Fulfilled Sim.provisioned.
Proof.
  apply (proj2 (proj1 (@race_only_selects_reason _ _ _ _ _ Sim.pgpService
                         Sim.cryptoSvc Sim.encoding FirstRejectsFirst
                         SecondRejectsFirst Sim.fresh)
                  "1c1o1r1r1e1c1t1-1h1o1r1s1e0user-1" "1p1u1b0user-1")).
  reflexivity.
Defined.

(** X11 on the scenario: [build], [encrypt "hello world"], then a new
    manager that loads the exported texts and decrypts. *)
Lemma resumed_session_decrypts_witness :
  exists k keyObj,
    createEncryptionKey [x0a; xff] = Fulfilled k /\
    decrypt "1u1s1e1r1-1101u1s1e1r1-1100aff" "101a1f1f0hello world"
      (snd (load SecondRejectsFirst "1c1o1r1r1e1c1t1-1h1o1r1s1e0user-1"
              "1p1u1b0user-1" (constructor "user-1" "correct-horse")))
    = (Fulfilled (E2EEItem.mk keyObj (arrayToHexString (EncryptionKey.key k))
                    "hello world"),
       invoke_all [Build [x00] FirstRejectsFirst]
         (constructor "user-1" "correct-horse")).
Proof.
  apply (@resumed_session_decrypts _ _ _ _ _ Sim.pgpService Sim.cryptoSvc
           Sim.encoding "user-1" "correct-horse"
           [Build [x00] FirstRejectsFirst]
           (MasterKeys.mk "1c1o1r1r1e1c1t1-1h1o1r1s1e0user-1" "1p1u1b0user-1")
           [x0a; xff] [] [] FirstRejectsFirst SecondRejectsFirst "hello world"
           (E2EEItemEncrypted.mk "1u1s1e1r1-1101u1s1e1r1-1100aff"
              "101a1f1f0hello world" [x0a; xff])).
  - reflexivity.
  - intros sk pk Hsk Hpk. injection Hsk as <-. injection Hpk as <-.
    apply sim_asymmetric_inverse.
  - exact sim_payload_inverse.
  - exact sim_hex_inverse.
  - exact sim_import_accepts_generated.
  - reflexivity.
  - reflexivity.
Defined.

(** X12: the scenario's manager and an instance that holds the same
    handles under another passphrase, with no stored text. *)
Lemma item_operations_read_handles_only_witness :
  (forall (ck cw cp : Uint8Array) (r : race) (data : string),
      fst (encrypt ck cw cp r data Sim.provisioned)
      = fst (encrypt ck cw cp r data
               (mkOpenE2EE "wrong" (Some "user-1") None None (Some "user-1")
                  "user-2"))) /\
  (forall encryptedKey encryptedData : string,
      fst (decrypt encryptedKey encryptedData Sim.provisioned)
      = fst (decrypt encryptedKey encryptedData
               (mkOpenE2EE "wrong" (Some "user-1") None None (Some "user-1")
                  "user-2"))).
Proof.
  apply (@item_operations_read_handles_only _ _ _ _ _ Sim.pgpService
           Sim.cryptoSvc Sim.encoding); reflexivity.
Defined.
